(** * psnotify: the listener for the Linux netlink process connector

    A shallow embedding of the Linux half of package [psnotify]: the wire
    structures and their decoding with [encoding/binary], the watch
    table and [Watcher.isWatching], the dispatcher [Watcher.handleEvent]
    and the read loop [Watcher.readEvents].

    Conventions.
    - Go's fixed-width unsigned integers are [Z] values in their range;
      [int] is the 64-bit [int] of linux/amd64.
    - A byte slice is a [list Byte.byte]; a [bytes.Buffer] is the list of
      its unread bytes.
    - The watcher's map [w.watches : map[int]*watch] is a [gmap Z watch].
    - Everything a method does to the outside is recorded, in order, in a
      trace of [Effect]s: taking and releasing [w.watchesMutex], every
      access to [w.watches], every send on one of the watcher's channels
      (a send is recorded when it is made; the reader of the channel is
      not part of the model).
    - A computation either returns or panics. *)

From Stdlib Require Import ZArith List Bool Lia String Ascii.
From Stdlib Require Import Init.Byte.
From stdpp Require Import base option list gmap.

Local Open Scope Z_scope.

(** ** Constants *)

(** [<linux/cn_proc.h>] event kinds, as in the [const] block. *)
Definition PROC_EVENT_FORK : Z := 0x00000001.
Definition PROC_EVENT_EXEC : Z := 0x00000002.
Definition PROC_EVENT_EXIT : Z := 0x80000000.
Definition PROC_EVENT_UID : Z := 0x00000004.
Definition PROC_EVENT_GID : Z := 0x00000040.
Definition PROC_EVENT_SID : Z := 0x00000080.
Definition PROC_EVENT_PTRACE : Z := 0x00000100.
Definition PROC_EVENT_COMM : Z := 0x00000200.
(** (the source line of this constant ends in a comma) *)
Definition PROC_EVENT_COREDUMP : Z := 0x40000000.

Definition PROC_EVENT_ALL : Z :=
  Z.lor PROC_EVENT_FORK (Z.lor PROC_EVENT_EXEC (Z.lor PROC_EVENT_EXIT
    (Z.lor PROC_EVENT_GID (Z.lor PROC_EVENT_SID PROC_EVENT_UID)))).

(** [syscall.NLMSG_HDRLEN], [syscall.NLMSG_DONE] and [syscall.EINVAL] on
    linux. *)
Definition NLMSG_HDRLEN : nat := 16.
Definition NLMSG_DONE : Z := 0x3.

(** ** Bytes and byte order *)

Inductive ByteOrder := LittleEndian | BigEndian.

Definition byte_val (b : Byte.byte) : Z := Z.of_N (Byte.to_N b).

(** [binary.LittleEndian.UintN]: [b[0] | b[1]<<8 | ...]. *)
Fixpoint le_uint (bs : list Byte.byte) : Z :=
  match bs with
  | [] => 0
  | b :: rest => Z.lor (byte_val b) (Z.shiftl (le_uint rest) 8)
  end.

Definition uint_of (order : ByteOrder) (bs : list Byte.byte) : Z :=
  match order with
  | LittleEndian => le_uint bs
  | BigEndian => le_uint (rev bs)
  end.

(** The unsigned integer of [n] bytes found at offset [off] of [bs]. *)
Definition uint_at (order : ByteOrder) (n off : nat) (bs : list Byte.byte) : Z :=
  uint_of order (take n (drop off bs)).

(** [int(x)] for [x : uint32], with [int] 64 bits wide. *)
Definition int_of_uint32 (x : Z) : Z :=
  let r := x mod 2 ^ 64 in
  if r <? 2 ^ 63 then r else r - 2 ^ 64.

(** ** Wire structures *)

(** [linux/connector.h: struct cb_id] *)
Record cbId := { Idx : Z; Val : Z }.

(** [linux/connector.h: struct cb_msg] *)
Record cnMsg := { Id : cbId; Seq : Z; Ack : Z; Len : Z; Flags : Z }.

(** [linux/cn_proc.h: struct proc_event.{what,cpu,timestamp_ns}] *)
Record procEventHeader := { What : Z; Cpu : Z; Timestamp : Z }.

Record forkProcEvent :=
  { ParentPid : Z; ParentTgid : Z; ChildPid : Z; ChildTgid : Z }.

Record execProcEvent := { exec_ProcessPid : Z; exec_ProcessTgid : Z }.

Record exitProcEvent :=
  { exit_ProcessPid : Z; exit_ProcessTgid : Z; ExitCode : Z; ExitSignal : Z }.

Record idProcEvent :=
  { id_ProcessPid : Z; id_ProcessTgid : Z; Rid : Z; eId : Z }.

Record sidProcEvent := { sid_ProcessPid : Z; sid_ProcessTgid : Z }.

(** ** [encoding/binary] *)

(** A Go identifier is exported when it starts with an upper-case
    letter. *)
Definition exported (name : string) : bool :=
  match name with
  | String c _ => (65 <=? nat_of_ascii c)%nat && (nat_of_ascii c <=? 90)%nat
  | EmptyString => false
  end.

(** [reflect.Value.SetUint] on the field [name] of a struct: a field that
    is not exported is read-only and the call panics ([None]).
    [decoder.value] calls it for every field whose name is not [_]; the
    documentation of [binary.Read] says so: "all non-blank fields must be
    exported or Read may panic". *)
Definition SetUint (name : string) (v : Z) : option Z :=
  if exported name then Some v else None.

(** What [binary.Read] needs to know of a fixed-size structure:
    [zero] is the freshly allocated [&T{}], [dataSize] its encoded size,
    [value] is [decoder.value] on a full buffer. *)
Class BinaryData (A : Type) := {
  zero : A;
  dataSize : nat;
  value : ByteOrder → list Byte.byte → option A
}.

Local Open Scope string_scope.

#[export] Instance cnMsg_data : BinaryData cnMsg := {
  zero := {| Id := {| Idx := 0; Val := 0 |}; Seq := 0; Ack := 0; Len := 0; Flags := 0 |};
  dataSize := 20;
  value order b :=
    idx ← SetUint "Idx" (uint_at order 4 0 b);
    val ← SetUint "Val" (uint_at order 4 4 b);
    seq ← SetUint "Seq" (uint_at order 4 8 b);
    ack ← SetUint "Ack" (uint_at order 4 12 b);
    len ← SetUint "Len" (uint_at order 2 16 b);
    flg ← SetUint "Flags" (uint_at order 2 18 b);
    Some {| Id := {| Idx := idx; Val := val |};
            Seq := seq; Ack := ack; Len := len; Flags := flg |}
}.

#[export] Instance procEventHeader_data : BinaryData procEventHeader := {
  zero := {| What := 0; Cpu := 0; Timestamp := 0 |};
  dataSize := 16;
  value order b :=
    what ← SetUint "What" (uint_at order 4 0 b);
    cpu ← SetUint "Cpu" (uint_at order 4 4 b);
    ts ← SetUint "Timestamp" (uint_at order 8 8 b);
    Some {| What := what; Cpu := cpu; Timestamp := ts |}
}.

#[export] Instance forkProcEvent_data : BinaryData forkProcEvent := {
  zero := {| ParentPid := 0; ParentTgid := 0; ChildPid := 0; ChildTgid := 0 |};
  dataSize := 16;
  value order b :=
    ppid ← SetUint "ParentPid" (uint_at order 4 0 b);
    ptgid ← SetUint "ParentTgid" (uint_at order 4 4 b);
    cpid ← SetUint "ChildPid" (uint_at order 4 8 b);
    ctgid ← SetUint "ChildTgid" (uint_at order 4 12 b);
    Some {| ParentPid := ppid; ParentTgid := ptgid;
            ChildPid := cpid; ChildTgid := ctgid |}
}.

#[export] Instance execProcEvent_data : BinaryData execProcEvent := {
  zero := {| exec_ProcessPid := 0; exec_ProcessTgid := 0 |};
  dataSize := 8;
  value order b :=
    pid ← SetUint "ProcessPid" (uint_at order 4 0 b);
    tgid ← SetUint "ProcessTgid" (uint_at order 4 4 b);
    Some {| exec_ProcessPid := pid; exec_ProcessTgid := tgid |}
}.

#[export] Instance exitProcEvent_data : BinaryData exitProcEvent := {
  zero := {| exit_ProcessPid := 0; exit_ProcessTgid := 0; ExitCode := 0; ExitSignal := 0 |};
  dataSize := 16;
  value order b :=
    pid ← SetUint "ProcessPid" (uint_at order 4 0 b);
    tgid ← SetUint "ProcessTgid" (uint_at order 4 4 b);
    code ← SetUint "ExitCode" (uint_at order 4 8 b);
    sig ← SetUint "ExitSignal" (uint_at order 4 12 b);
    Some {| exit_ProcessPid := pid; exit_ProcessTgid := tgid;
            ExitCode := code; ExitSignal := sig |}
}.

(** The last field of [idProcEvent] is spelled [eId] in the source. *)
#[export] Instance idProcEvent_data : BinaryData idProcEvent := {
  zero := {| id_ProcessPid := 0; id_ProcessTgid := 0; Rid := 0; eId := 0 |};
  dataSize := 16;
  value order b :=
    pid ← SetUint "ProcessPid" (uint_at order 4 0 b);
    tgid ← SetUint "ProcessTgid" (uint_at order 4 4 b);
    rid ← SetUint "Rid" (uint_at order 4 8 b);
    eid ← SetUint "eId" (uint_at order 4 12 b);
    Some {| id_ProcessPid := pid; id_ProcessTgid := tgid; Rid := rid; eId := eid |}
}.

#[export] Instance sidProcEvent_data : BinaryData sidProcEvent := {
  zero := {| sid_ProcessPid := 0; sid_ProcessTgid := 0 |};
  dataSize := 8;
  value order b :=
    pid ← SetUint "ProcessPid" (uint_at order 4 0 b);
    tgid ← SetUint "ProcessTgid" (uint_at order 4 4 b);
    Some {| sid_ProcessPid := pid; sid_ProcessTgid := tgid |}
}.

Local Close Scope string_scope.

(** The outcome of [binary.Read(buf, order, data)] for [data] pointing to
    a fresh structure: the structure afterwards, or a panic.

    [binary.Read] allocates [dataSize] bytes and fills them with
    [io.ReadFull]. When the buffer holds fewer bytes, [io.ReadFull]
    consumes all of them and fails, [binary.Read] returns the error and
    [data] keeps its zero value; the callers in this package drop the
    error. Otherwise [decoder.value] fills the fields. *)
Inductive ReadResult (A : Type) :=
| ReadOk (a : A)
| ReadErr (a : A)
| ReadPanic.
Arguments ReadOk {A} a.
Arguments ReadErr {A} a.
Arguments ReadPanic {A}.

Definition binary_Read {A} `{BinaryData A} (buf : list Byte.byte) (order : ByteOrder)
  : ReadResult A * list Byte.byte :=
  if (dataSize <=? length buf)%nat then
    (match value order (take dataSize buf) with
     | Some a => ReadOk a
     | None => ReadPanic
     end, drop dataSize buf)
  else (ReadErr zero, []).

(** ** The watcher *)

(** [type watch struct { flags uint32 }] *)
Record watch := { flags : Z }.

(** The wildcard key of the watch table ("for any process"). *)
Definition ANY : Z := -1.

Inductive error := Errno (n : Z).
Definition EINVAL : error := Errno 0x16.

(** A value sent on one of the watcher's channels: [w.Fork], [w.Exec],
    [w.Exit], [w.Uid], [w.Sid] carry the event built at the send
    ([w.Uid] and [w.Sid] carry a [ProcEventExit] in the source), [w.Error]
    carries an error. *)
Inductive Msg :=
| OnFork (ParentPid ChildPid : Z)
| OnExec (Pid : Z)
| OnExit (Pid : Z)
| OnUid (Pid : Z)
| OnSid (Pid : Z)
| OnError (err : error).

Inductive Effect :=
| Lock
| Unlock
| MapLoad (pid : Z)
| MapStore (pid : Z)
| MapDelete (pid : Z)
| ChanSend (m : Msg).

(** The result of running a method on a watch table: the value returned
    ([None] for a panic), the table afterwards, the effects in order. *)
Record Res (A : Type) := mkRes {
  result : option A;
  table : gmap Z watch;
  effects : list Effect
}.
Arguments mkRes {A} _ _ _.
Arguments result {A} _.
Arguments table {A} _.
Arguments effects {A} _.

Definition M (A : Type) : Type := gmap Z watch → Res A.

#[export] Instance M_ret : MRet M := λ A a t, mkRes (Some a) t [].

#[export] Instance M_bind : MBind M := λ A B f m t,
  let r := m t in
  match result r with
  | None => mkRes None (table r) (effects r)
  | Some a =>
      let r' := f a (table r) in
      mkRes (result r') (table r') (effects r ++ effects r')
  end.

Definition panic {A} : M A := λ t, mkRes None t [].
Definition emit (e : Effect) : M unit := λ t, mkRes (Some ()) t [e].

Definition lock : M unit := emit Lock.
Definition unlock : M unit := emit Unlock.
Definition send (m : Msg) : M unit := emit (ChanSend m).

(** [w.watches[pid]] *)
Definition load (pid : Z) : M (option watch) :=
  λ t, mkRes (Some (t !! pid)) t [MapLoad pid].

(** [w.watches[pid] = e], or [e.flags = ...] through the stored pointer *)
Definition store (pid : Z) (e : watch) : M unit :=
  λ t, mkRes (Some ()) (<[pid := e]> t) [MapStore pid].

(** [delete(w.watches, pid)] *)
Definition remove (pid : Z) : M unit :=
  λ t, mkRes (Some ()) (delete pid t) [MapDelete pid].

(** The messages sent, in order. *)
Fixpoint sent (tr : list Effect) : list Msg :=
  match tr with
  | [] => []
  | ChanSend m :: rest => m :: sent rest
  | _ :: rest => sent rest
  end.

(** [Watcher.isWatching]: the mutex is taken on entry and released by the
    deferred call on return. *)
Definition isWatching (pid : Z) (event : Z) : M bool :=
  lock ;;
  r ← (o ← load pid;
       match o with
       | Some watch => mret (Z.land (flags watch) event =? event)
       | None =>
           (* for any process *)
           o ← load ANY;
           match o with
           | Some watch => mret (Z.land (flags watch) event =? event)
           | None => mret false
           end
       end);
  unlock ;;
  mret r.

(** Modelled from the spec: [Watcher.Watch], which is declared in
    psnotify.go and is not among the sources. The spec's
    [Subscribe(pid, mask)] "merges mask into the existing interest
    bitmask for pid (or inserts a new entry)", and the table operations
    run under "a single mutual-exclusion lock guarding the whole
    table". *)
Definition Watch (pid : Z) (mask : Z) : M unit :=
  lock ;;
  o ← load pid;
  match o with
  | Some e => store pid {| flags := Z.lor (flags e) mask |}
  | None => store pid {| flags := mask |}
  end ;;
  unlock.

(** Modelled from the spec: [Watcher.RemoveWatch], which is declared in
    psnotify.go and is not among the sources. The spec's
    [Unsubscribe(pid)] "removes the entry entirely", under the table's
    lock. *)
Definition RemoveWatch (pid : Z) : M unit :=
  lock ;;
  remove pid ;;
  unlock.

(** [for _, x := range xs { body x }] *)
Fixpoint for_range {A} (xs : list A) (body : A → M unit) : M unit :=
  match xs with
  | [] => mret ()
  | x :: rest => body x ;; for_range rest body
  end.

(** ** [syscall]: netlink messages *)

Module syscall.

(** [syscall.NlMsghdr] *)
Record NlMsghdr := { Len : Z; Type_ : Z; Flags : Z; Seq : Z; Pid : Z }.

(** [syscall.NetlinkMessage] *)
Record NetlinkMessage := { Header : NlMsghdr; Data : list Byte.byte }.

(** [(msglen + NLMSG_ALIGNTO - 1) & ^(NLMSG_ALIGNTO - 1)] *)
Definition nlmAlignOf (msglen : Z) : Z := Z.land (msglen + 3) (Z.lnot 3).

(** The header that starts [b], read in place in the byte order of the
    host. *)
Definition header_at (order : ByteOrder) (b : list Byte.byte) : NlMsghdr :=
  {| Len := uint_at order 4 0 b;
     Type_ := uint_at order 2 4 b;
     Flags := uint_at order 2 6 b;
     Seq := uint_at order 4 8 b;
     Pid := uint_at order 4 12 b |}.

(** The loop of [syscall.ParseNetlinkMessage]: while a header fits,
    [netlinkMessageHeaderAndData] checks the length it announces
    ([EINVAL], and no message at all, when it is below the header size
    or its aligned value exceeds what is left), the message is
    appended and the aligned length skipped. Every round skips at least
    a header, so [length b] rounds are always enough. *)
Fixpoint parse_loop (fuel : nat) (order : ByteOrder) (b : list Byte.byte)
    (msgs : list NetlinkMessage) : option (list NetlinkMessage) :=
  match fuel with
  | O => Some msgs
  | S fuel' =>
      if (NLMSG_HDRLEN <=? length b)%nat then
        let h := header_at order b in
        let l := nlmAlignOf (Len h) in
        if (Len h <? Z.of_nat NLMSG_HDRLEN) || (Z.of_nat (length b) <? l) then None
        else
          let m := {| Header := h;
                      Data := take (Z.to_nat (Len h) - NLMSG_HDRLEN) (drop NLMSG_HDRLEN b) |} in
          parse_loop fuel' order (drop (Z.to_nat l) b) (msgs ++ [m])
      else Some msgs
  end.

Definition ParseNetlinkMessage (order : ByteOrder) (b : list Byte.byte)
  : option (list NetlinkMessage) :=
  parse_loop (length b) order b [].

End syscall.

(** What one call of [syscall.Recvfrom(listener.sock, buf, 0)] gives the
    loop: an error, or the [nr] bytes [buf[:nr]] of a datagram. *)
Inductive Recvfrom :=
| RecvErr (err : error)
| RecvOk (datagram : list Byte.byte).

Section Listener.

(** [var byteOrder = sys.GetEndian()]: the byte order of the host. *)
Variable byteOrder : ByteOrder.

(** [event := &T{}; binary.Read(buf, byteOrder, event)], the error
    dropped: the structure afterwards and the rest of the buffer. *)
Definition read {A} `{BinaryData A} (buf : list Byte.byte) : M (A * list Byte.byte) :=
  match binary_Read buf byteOrder with
  | (ReadOk a, rest) => mret (a, rest)
  | (ReadErr a, rest) => mret (a, rest)
  | (ReadPanic, _) => panic
  end.

(** The bodies of the cases of [switch hdr.What] in
    [Watcher.handleEvent]; [buf] is the buffer after the two headers. *)

(** [case PROC_EVENT_FORK]. The two lookups of the fork-follow branch
    read [w.watches] directly. *)
Definition case_FORK (buf : list Byte.byte) : M unit :=
  '(event, _) ← read (A := forkProcEvent) buf;
  let ppid := int_of_uint32 (ParentTgid event) in
  let pid := int_of_uint32 (ChildTgid event) in
  following ← isWatching ppid PROC_EVENT_EXEC;
  (if following : bool then
     (* follow forks *)
     o ← load ppid;
     match o with
     | None =>
         o ← load ANY;
         match o with
         | Some watch => Watch pid (flags watch)
         | None => mret ()
         end
     | Some watch => Watch pid (flags watch)
     end
   else mret ()) ;;
  forked ← isWatching ppid PROC_EVENT_FORK;
  if forked : bool then send (OnFork ppid pid) else mret ().

(** [case PROC_EVENT_EXEC] *)
Definition case_EXEC (buf : list Byte.byte) : M unit :=
  '(event, _) ← read (A := execProcEvent) buf;
  let pid := int_of_uint32 (exec_ProcessTgid event) in
  b ← isWatching pid PROC_EVENT_EXEC;
  if b : bool then send (OnExec pid) else mret ().

(** [case PROC_EVENT_EXIT] *)
Definition case_EXIT (buf : list Byte.byte) : M unit :=
  '(event, _) ← read (A := exitProcEvent) buf;
  let pid := int_of_uint32 (exit_ProcessTgid event) in
  b ← isWatching pid PROC_EVENT_EXIT;
  if b : bool then RemoveWatch pid ;; send (OnExit pid) else mret ().

(** [case PROC_EVENT_UID, PROC_EVENT_GID] *)
Definition case_UID_GID (buf : list Byte.byte) : M unit :=
  '(event, _) ← read (A := idProcEvent) buf;
  let pid := int_of_uint32 (id_ProcessPid event) in
  b ← isWatching pid PROC_EVENT_UID;
  if b : bool then RemoveWatch pid ;; send (OnUid pid) else mret ().

(** [case PROC_EVENT_SID] *)
Definition case_SID (buf : list Byte.byte) : M unit :=
  '(event, _) ← read (A := sidProcEvent) buf;
  let pid := int_of_uint32 (sid_ProcessPid event) in
  b ← isWatching pid PROC_EVENT_SID;
  if b : bool then RemoveWatch pid ;; send (OnSid pid) else mret ().

(** [Watcher.handleEvent] *)
Definition handleEvent (data : list Byte.byte) : M unit :=
  let buf := data in
  '(msg, buf) ← read (A := cnMsg) buf;
  '(hdr, buf) ← read (A := procEventHeader) buf;
  if What hdr =? PROC_EVENT_FORK then case_FORK buf
  else if What hdr =? PROC_EVENT_EXEC then case_EXEC buf
  else if What hdr =? PROC_EVENT_EXIT then case_EXIT buf
  else if (What hdr =? PROC_EVENT_UID) || (What hdr =? PROC_EVENT_GID) then case_UID_GID buf
  else if What hdr =? PROC_EVENT_SID then case_SID buf
  else mret ().

(** [Watcher.readEvents], run on the results of its successive calls of
    [Recvfrom]; [w.isDone()] answers true once they are used up. The
    error of [ParseNetlinkMessage] is dropped, with it [msgs] is nil. *)
Fixpoint readEvents (recvs : list Recvfrom) : M unit :=
  match recvs with
  | [] => mret ()
  | RecvErr err :: rest =>
      send (OnError err) ;;
      readEvents rest
  | RecvOk datagram :: rest =>
      if (length datagram <? NLMSG_HDRLEN)%nat then
        send (OnError EINVAL) ;;
        readEvents rest
      else
        let msgs := default [] (syscall.ParseNetlinkMessage byteOrder datagram) in
        for_range msgs (λ m,
          if syscall.Type_ (syscall.Header m) =? NLMSG_DONE
          then handleEvent (syscall.Data m)
          else mret ()) ;;
        readEvents rest
  end.

End Listener.

(** ** Encoding, for building datagrams *)

Definition byte_of (z : Z) : Byte.byte :=
  default Byte.x00 (Byte.of_N (Z.to_N (z mod 256))).

Fixpoint le_bytes (n : nat) (v : Z) : list Byte.byte :=
  match n with
  | O => []
  | S n' => byte_of v :: le_bytes n' (v / 256)
  end.

(** [order.PutUintN]: the [n] bytes of [v]. *)
Definition put_uint (order : ByteOrder) (n : nat) (v : Z) : list Byte.byte :=
  match order with
  | LittleEndian => le_bytes n v
  | BigEndian => rev (le_bytes n v)
  end.

(** A connector message as the kernel sends it: [cn_msg], the event
    header with kind [what], then the payload as 32-bit fields. *)
Definition cn_msg_bytes (order : ByteOrder) (len : Z) : list Byte.byte :=
  put_uint order 4 1 ++ put_uint order 4 1 ++ put_uint order 4 0 ++ put_uint order 4 0
  ++ put_uint order 2 len ++ put_uint order 2 0.

Definition event_header_bytes (order : ByteOrder) (what : Z) : list Byte.byte :=
  put_uint order 4 what ++ put_uint order 4 0 ++ put_uint order 8 0.

Definition event_bytes (order : ByteOrder) (what : Z) (fields : list Z) : list Byte.byte :=
  let payload := concat (map (put_uint order 4) fields) in
  cn_msg_bytes order (Z.of_nat (16 + length payload))
  ++ event_header_bytes order what
  ++ payload.

(** A datagram holding one netlink message of type [NLMSG_DONE]. *)
Definition datagram_of (order : ByteOrder) (data : list Byte.byte) : list Byte.byte :=
  put_uint order 4 (Z.of_nat (NLMSG_HDRLEN + length data))
  ++ put_uint order 2 NLMSG_DONE ++ put_uint order 2 0
  ++ put_uint order 4 0 ++ put_uint order 4 0
  ++ data.

(** A watch table from a list of entries. *)
Definition table_of (entries : list (Z * Z)) : gmap Z watch :=
  list_to_map (map (λ e, (e.1, {| flags := e.2 |})) entries).

(** ** Views used in the statements *)

(** The structure [binary.Read] leaves behind, and the buffer after it. *)
Definition struct_of {A} `{BinaryData A} (order : ByteOrder) (buf : list Byte.byte) : A :=
  match (binary_Read buf order).1 with
  | ReadOk a => a
  | ReadErr a => a
  | ReadPanic => zero
  end.

Definition rest_of (A : Type) `{BinaryData A} (order : ByteOrder) (buf : list Byte.byte)
  : list Byte.byte :=
  (binary_Read (A := A) buf order).2.

(** The event header [handleEvent] decodes from [data], and the buffer
    it hands to the case of the switch. *)
Definition event_header (order : ByteOrder) (data : list Byte.byte) : procEventHeader :=
  struct_of order (rest_of cnMsg order data).

Definition event_payload (order : ByteOrder) (data : list Byte.byte) : list Byte.byte :=
  rest_of procEventHeader order (rest_of cnMsg order data).

(** [data] is a fork event for [(ppid, pid)], an exec or exit event for
    [pid]: the kind of its header, and the thread-group ids of its
    payload. *)
Definition is_fork_event (order : ByteOrder) (data : list Byte.byte) (ppid pid : Z) : Prop :=
  What (event_header order data) = PROC_EVENT_FORK ∧
  int_of_uint32 (ParentTgid (struct_of order (event_payload order data))) = ppid ∧
  int_of_uint32 (ChildTgid (struct_of order (event_payload order data))) = pid.

Definition is_exec_event (order : ByteOrder) (data : list Byte.byte) (pid : Z) : Prop :=
  What (event_header order data) = PROC_EVENT_EXEC ∧
  int_of_uint32 (exec_ProcessTgid (struct_of order (event_payload order data))) = pid.

Definition is_exit_event (order : ByteOrder) (data : list Byte.byte) (pid : Z) : Prop :=
  What (event_header order data) = PROC_EVENT_EXIT ∧
  int_of_uint32 (exit_ProcessTgid (struct_of order (event_payload order data))) = pid.

(** The kinds [handleEvent] has a case for. *)
Definition handled_kinds : list Z :=
  [PROC_EVENT_FORK; PROC_EVENT_EXEC; PROC_EVENT_EXIT;
   PROC_EVENT_UID; PROC_EVENT_GID; PROC_EVENT_SID].

(** The kinds of the [const] block. *)
Definition known_kinds : list Z :=
  handled_kinds ++ [PROC_EVENT_PTRACE; PROC_EVENT_COMM; PROC_EVENT_COREDUMP].

(** [kind] is set in the mask of [e]: [(e.flags & kind) == kind]. *)
Definition has_kind (e : watch) (kind : Z) : bool :=
  Z.land (flags e) kind =? kind.

(** The entry that answers for [pid]: its own, else the wildcard's. *)
Definition matching_entry (t : gmap Z watch) (pid : Z) : option watch :=
  match t !! pid with
  | Some e => Some e
  | None => t !! ANY
  end.

(** What [isWatching] answers on the table [t], and what it does to
    get there. *)
Definition watching (t : gmap Z watch) (pid kind : Z) : bool :=
  from_option (λ e, has_kind e kind) false (matching_entry t pid).

Definition watching_trace (t : gmap Z watch) (pid : Z) : list Effect :=
  Lock :: MapLoad pid ::
  match t !! pid with Some _ => [] | None => [MapLoad ANY] end ++ [Unlock].

(** The mutex discipline of a trace: [held] tells whether
    [w.watchesMutex] is held; every access to the map must happen while
    it is, and the mutex is neither taken twice nor released when free. *)
Fixpoint disciplined (held : bool) (tr : list Effect) : bool :=
  match tr with
  | [] => true
  | Lock :: rest => negb held && disciplined true rest
  | Unlock :: rest => held && disciplined false rest
  | MapLoad _ :: rest => held && disciplined held rest
  | MapStore _ :: rest => held && disciplined held rest
  | MapDelete _ :: rest => held && disciplined held rest
  | ChanSend _ :: rest => disciplined held rest
  end.

(** An effect that changes the watch table. *)
Definition mutates (e : Effect) : bool :=
  match e with
  | MapStore _ | MapDelete _ => true
  | _ => false
  end.

Definition is_error (m : Msg) : bool :=
  match m with OnError _ => true | _ => false end.

(** ** The kernel channel: [netlinkListener] *)

(** Internal flags, from [<linux/connector.h>] and [<linux/cn_proc.h>]. *)
Definition _CN_IDX_PROC : Z := 0x1.
Definition _CN_VAL_PROC : Z := 0x1.
Definition _PROC_CN_MCAST_LISTEN : Z := 1.
Definition _PROC_CN_MCAST_IGNORE : Z := 2.

(** [syscall.AF_NETLINK], [syscall.SOCK_DGRAM] and
    [syscall.NETLINK_CONNECTOR] on linux. *)
Definition AF_NETLINK : Z := 0x10.
Definition SOCK_DGRAM : Z := 0x2.
Definition NETLINK_CONNECTOR : Z := 0xb.

(** [syscall.SockaddrNetlink], the fields the listener sets. *)
Record SockaddrNetlink := { Family : Z; Groups : Z }.

(** [type netlinkListener struct]; [addr] is a pointer, nil at first. *)
Record netlinkListener := { addr : option SockaddrNetlink; sock : Z; seq : Z }.

(** [type netlinkProcMessage struct]: standard netlink header +
    connector header. *)
Record netlinkProcMessage := { pm_Header : syscall.NlMsghdr; pm_Data : cnMsg }.

(** [binary.Write] of the two headers: the fields in order, each at its
    width. *)
Definition Write_NlMsghdr (order : ByteOrder) (h : syscall.NlMsghdr) : list Byte.byte :=
  put_uint order 4 (syscall.Len h) ++ put_uint order 2 (syscall.Type_ h)
  ++ put_uint order 2 (syscall.Flags h) ++ put_uint order 4 (syscall.Seq h)
  ++ put_uint order 4 (syscall.Pid h).

Definition Write_cnMsg (order : ByteOrder) (m : cnMsg) : list Byte.byte :=
  put_uint order 4 (Idx (Id m)) ++ put_uint order 4 (Val (Id m))
  ++ put_uint order 4 (Seq m) ++ put_uint order 4 (Ack m)
  ++ put_uint order 2 (Len m) ++ put_uint order 2 (Flags m).

Definition Write_netlinkProcMessage (order : ByteOrder) (pr : netlinkProcMessage)
  : list Byte.byte :=
  Write_NlMsghdr order (pm_Header pr) ++ Write_cnMsg order (pm_Data pr).

(** The system calls the listener makes, as it makes them. *)
Inductive Syscall :=
| SysSocket (domain typ proto : Z)
| SysBind (fd : Z) (sa : option SockaddrNetlink)
| SysSendto (fd : Z) (p : list Byte.byte) (flags : Z) (to : option SockaddrNetlink)
| SysClose (fd : Z).

(** What the operating system answers: the pid of the process, the
    descriptor or the error of [syscall.Socket], the error of
    [syscall.Bind], the error of [syscall.Sendto] for the bytes sent. *)
Record Kernel := {
  Getpid : Z;
  Socket_result : sum Z error;
  Bind_result : option error;
  Sendto_result : list Byte.byte → option error
}.

Module listener.
Section WithKernel.

Variable byteOrder : ByteOrder.
Variable k : Kernel.

(** [netlinkListener.send]: the listener afterwards, the error returned,
    the system calls made. *)
Definition send (l : netlinkListener) (op : Z)
  : netlinkListener * option error * list Syscall :=
  let l := {| addr := addr l; sock := sock l; seq := (seq l + 1) mod 2 ^ 32 |} in
  let plen := Z.of_nat (dataSize (A := cnMsg)) + 4 in
  let pr :=
    {| pm_Header :=
         {| syscall.Len := (Z.of_nat NLMSG_HDRLEN + plen mod 2 ^ 32) mod 2 ^ 32;
            syscall.Type_ := NLMSG_DONE mod 2 ^ 16;
            syscall.Flags := 0;
            syscall.Seq := seq l;
            syscall.Pid := Getpid k mod 2 ^ 32 |};
       pm_Data :=
         {| Id := {| Idx := _CN_IDX_PROC; Val := _CN_VAL_PROC |};
            Seq := 0; Ack := 0; Len := 4 mod 2 ^ 16; Flags := 0 |} |} in
  let buf := Write_netlinkProcMessage byteOrder pr ++ put_uint byteOrder 4 op in
  (l, Sendto_result k buf, [SysSendto (sock l) buf 0 (addr l)]).

(** [netlinkListener.bind] *)
Definition bind (l : netlinkListener) : netlinkListener * option error * list Syscall :=
  match Socket_result k with
  | inr err => (l, Some err, [SysSocket AF_NETLINK SOCK_DGRAM NETLINK_CONNECTOR])
  | inl fd =>
      let l := {| sock := fd;
                  addr := Some {| Family := AF_NETLINK; Groups := _CN_IDX_PROC |};
                  seq := seq l |} in
      match Bind_result k with
      | Some err =>
          (l, Some err,
           [SysSocket AF_NETLINK SOCK_DGRAM NETLINK_CONNECTOR; SysBind (sock l) (addr l)])
      | None =>
          let '(l', err, calls) := send l _PROC_CN_MCAST_LISTEN in
          (l', err,
           [SysSocket AF_NETLINK SOCK_DGRAM NETLINK_CONNECTOR; SysBind (sock l) (addr l)]
           ++ calls)
      end
  end.

(** [netlinkListener.close]: the error of [syscall.Close] is dropped. *)
Definition close (l : netlinkListener) : netlinkListener * option error * list Syscall :=
  let '(l', err, calls) := send l _PROC_CN_MCAST_IGNORE in
  (l', err, calls ++ [SysClose (sock l')]).

End WithKernel.
End listener.

(** [createListener]: a fresh listener, bound; the listener is returned
    with the error. *)
Definition createListener (order : ByteOrder) (k : Kernel)
  : netlinkListener * option error * list Syscall :=
  listener.bind order k {| addr := None; sock := 0; seq := 0 |}.

(** A netlink message as it travels: its header, then its data. *)
Definition nlmsg_bytes (order : ByteOrder) (m : syscall.NetlinkMessage) : list Byte.byte :=
  Write_NlMsghdr order (syscall.Header m) ++ syscall.Data m.

(** The header announces the length of the message, the data ends on a
    4-byte boundary, and every field fits its width. *)
Definition nlmsg_wf (m : syscall.NetlinkMessage) : Prop :=
  let h := syscall.Header m in
  syscall.Len h = Z.of_nat (NLMSG_HDRLEN + length (syscall.Data m)) ∧
  (length (syscall.Data m) mod 4 = 0)%nat ∧
  syscall.Len h < 2 ^ 32 ∧
  0 ≤ syscall.Type_ h < 2 ^ 16 ∧ 0 ≤ syscall.Flags h < 2 ^ 16 ∧
  0 ≤ syscall.Seq h < 2 ^ 32 ∧ 0 ≤ syscall.Pid h < 2 ^ 32.

(** The process id [handleEvent] asks the watch table about: the
    parent's thread-group id for a fork, the thread-group id for an exec
    or an exit, [ProcessPid] for the others (for a uid or gid event, the
    value [binary.Read] stores before it reaches [eId]). *)
Definition subject_pid (order : ByteOrder) (data : list Byte.byte) : Z :=
  let hdr := event_header order data in
  let buf := event_payload order data in
  if What hdr =? PROC_EVENT_FORK
  then int_of_uint32 (ParentTgid (struct_of order buf))
  else if What hdr =? PROC_EVENT_EXEC
  then int_of_uint32 (exec_ProcessTgid (struct_of order buf))
  else if What hdr =? PROC_EVENT_EXIT
  then int_of_uint32 (exit_ProcessTgid (struct_of order buf))
  else if (What hdr =? PROC_EVENT_UID) || (What hdr =? PROC_EVENT_GID)
  then int_of_uint32
         (if (dataSize (A := idProcEvent) <=? length buf)%nat
          then uint_at order 4 0 (take (dataSize (A := idProcEvent)) buf)
          else 0)
  else if What hdr =? PROC_EVENT_SID
  then int_of_uint32 (sid_ProcessPid (struct_of order buf))
  else 0.

(** The control message [send] builds for the sequence number [sq],
    the process id [pid] and the operation [op], as a netlink message. *)
Definition control_message (order : ByteOrder) (sq pid op : Z) : syscall.NetlinkMessage :=
  {| syscall.Header := {| syscall.Len := 40; syscall.Type_ := NLMSG_DONE;
                          syscall.Flags := 0; syscall.Seq := sq; syscall.Pid := pid |};
     syscall.Data :=
       Write_cnMsg order {| Id := {| Idx := _CN_IDX_PROC; Val := _CN_VAL_PROC |};
                            Seq := 0; Ack := 0; Len := 4; Flags := 0 |}
       ++ put_uint order 4 op |}.

(** The message of type [typ] that carries [data]. *)
Definition nlmsg (typ : Z) (data : list Byte.byte) : syscall.NetlinkMessage :=
  {| syscall.Header := {| syscall.Len := Z.of_nat (NLMSG_HDRLEN + length data);
                          syscall.Type_ := typ; syscall.Flags := 0;
                          syscall.Seq := 0; syscall.Pid := 0 |};
     syscall.Data := data |}.

(** The body of the loop over [msgs] in [readEvents]. *)
Definition dispatch (order : ByteOrder) (m : syscall.NetlinkMessage) : M unit :=
  if syscall.Type_ (syscall.Header m) =? NLMSG_DONE
  then handleEvent order (syscall.Data m)
  else mret ().

(** The error [readEvents] publishes for one receive, if any. *)
Definition recv_error (r : Recvfrom) : option error :=
  match r with
  | RecvErr err => Some err
  | RecvOk datagram =>
      if (length datagram <? NLMSG_HDRLEN)%nat then Some EINVAL else None
  end.

Definition errors_of (ms : list Msg) : list error :=
  omap (λ m, match m with OnError err => Some err | _ => None end) ms.

(** ** The monad *)

(** Case analysis on the condition of an [if] of the goal. *)
Ltac split_if :=
  match goal with |- context [if ?c then _ else _] => destruct c end.


Lemma run_bind {A B} (m : M A) (f : A → M B) t a t' e :
  m t = mkRes (Some a) t' e →
  (m ≫= f) t = mkRes (result (f a t')) (table (f a t')) (e ++ effects (f a t')).
Proof. intros E. unfold mbind, M_bind. rewrite E. reflexivity. Qed.

Lemma run_bind_ext {A B} (m1 m2 : M A) (f : A → M B) t :
  m1 t = m2 t → (m1 ≫= f) t = (m2 ≫= f) t.
Proof. intros E. unfold mbind, M_bind. rewrite E. reflexivity. Qed.

Lemma run_bind_ret (m : M unit) t : (m ≫= λ _, mret ()) t = m t.
Proof.
  unfold mbind, M_bind, mret, M_ret. destruct (m t) as [[[]|] t' e]; cbn.
  - rewrite app_nil_r. reflexivity.
  - reflexivity.
Qed.

Lemma run_ret_bind {A B} (a : A) (f : A → M B) t : (mret a ≫= f) t = f a t.
Proof. unfold mbind, M_bind, mret, M_ret. simpl. destruct (f a t); reflexivity. Qed.

Lemma run_bind_pure {A B} (m : M A) (f : A → M B) t a :
  m t = mkRes (Some a) t [] → (m ≫= f) t = f a t.
Proof. intros E. rewrite (run_bind _ _ _ _ _ _ E). destruct (f a t); reflexivity. Qed.

Lemma sent_app tr1 tr2 : sent (tr1 ++ tr2) = sent tr1 ++ sent tr2.
Proof.
  induction tr1 as [|e tr1 IH]; [reflexivity|].
  destruct e; simpl; rewrite ?IH; reflexivity.
Qed.

(** ** The watch table *)

Lemma isWatching_run pid event t :
  isWatching pid event t = mkRes (Some (watching t pid event)) t (watching_trace t pid).
Proof.
  unfold isWatching, watching, watching_trace, matching_entry, has_kind,
    mbind, M_bind, mret, M_ret, lock, unlock, load, emit.
  simpl. destruct (t !! pid) as [e|]; simpl; [reflexivity|].
  destruct (t !! ANY) as [e|]; reflexivity.
Qed.

Lemma Watch_run pid mask t :
  Watch pid mask t =
  mkRes (Some ())
        (<[pid := {| flags := from_option (λ e, Z.lor (flags e) mask) mask (t !! pid) |}]> t)
        [Lock; MapLoad pid; MapStore pid; Unlock].
Proof.
  unfold Watch, mbind, M_bind, mret, M_ret, lock, unlock, load, store, emit.
  simpl. destruct (t !! pid) as [e|]; reflexivity.
Qed.

Lemma RemoveWatch_run pid t :
  RemoveWatch pid t = mkRes (Some ()) (delete pid t) [Lock; MapDelete pid; Unlock].
Proof. reflexivity. Qed.

(** ** Decoding *)

Section Decoding.

Variable order : ByteOrder.

(** A structure whose fields are all exported is decoded without panic. *)
Lemma read_run {A} `{BinaryData A} buf t :
  (∀ b, is_Some (value order b)) →
  read order buf t = mkRes (Some (struct_of order buf, rest_of A order buf)) t [].
Proof.
  intros Hv. unfold read, struct_of, rest_of, binary_Read.
  destruct (dataSize <=? length buf)%nat; simpl; [|reflexivity].
  destruct (Hv (take dataSize buf)) as [a ->]. reflexivity.
Qed.

Lemma cnMsg_value b : is_Some (value (A := cnMsg) order b).
Proof. eexists. reflexivity. Qed.

Lemma procEventHeader_value b : is_Some (value (A := procEventHeader) order b).
Proof. eexists. reflexivity. Qed.

Lemma forkProcEvent_value b : is_Some (value (A := forkProcEvent) order b).
Proof. eexists. reflexivity. Qed.

Lemma execProcEvent_value b : is_Some (value (A := execProcEvent) order b).
Proof. eexists. reflexivity. Qed.

Lemma exitProcEvent_value b : is_Some (value (A := exitProcEvent) order b).
Proof. eexists. reflexivity. Qed.

Lemma sidProcEvent_value b : is_Some (value (A := sidProcEvent) order b).
Proof. eexists. reflexivity. Qed.

(** [idProcEvent] is not: [eId] is read-only for [reflect]. *)
Lemma idProcEvent_value b : value (A := idProcEvent) order b = None.
Proof. reflexivity. Qed.

(** The switch of [handleEvent], on the decoded header. *)
Lemma handleEvent_run data t :
  handleEvent order data t =
  let hdr := event_header order data in
  let buf := event_payload order data in
  (if What hdr =? PROC_EVENT_FORK then case_FORK order buf
   else if What hdr =? PROC_EVENT_EXEC then case_EXEC order buf
   else if What hdr =? PROC_EVENT_EXIT then case_EXIT order buf
   else if (What hdr =? PROC_EVENT_UID) || (What hdr =? PROC_EVENT_GID)
        then case_UID_GID order buf
   else if What hdr =? PROC_EVENT_SID then case_SID order buf
   else mret ()) t.
Proof.
  unfold handleEvent.
  rewrite (run_bind_pure _ _ _ _ (read_run data t cnMsg_value)).
  simpl.
  rewrite (run_bind_pure _ _ _ _ (read_run _ t procEventHeader_value)).
  reflexivity.
Qed.

(** The cases, run. *)

Lemma case_EXEC_run buf t :
  let pid := int_of_uint32 (exec_ProcessTgid (struct_of order buf)) in
  case_EXEC order buf t =
  mkRes (Some ()) t
    (watching_trace t pid ++
     if watching t pid PROC_EVENT_EXEC then [ChanSend (OnExec pid)] else []).
Proof.
  intros pid. unfold case_EXEC.
  rewrite (run_bind_pure _ _ _ _ (read_run buf t execProcEvent_value)). simpl.
  rewrite (run_bind _ _ _ _ _ _ (isWatching_run _ _ t)). fold pid.
  destruct (watching t pid PROC_EVENT_EXEC); reflexivity.
Qed.

Lemma case_EXIT_run buf t :
  let pid := int_of_uint32 (exit_ProcessTgid (struct_of order buf)) in
  case_EXIT order buf t =
  if watching t pid PROC_EVENT_EXIT
  then mkRes (Some ()) (delete pid t)
         (watching_trace t pid ++ [Lock; MapDelete pid; Unlock; ChanSend (OnExit pid)])
  else mkRes (Some ()) t (watching_trace t pid ++ []).
Proof.
  intros pid. unfold case_EXIT.
  rewrite (run_bind_pure _ _ _ _ (read_run buf t exitProcEvent_value)). simpl.
  rewrite (run_bind _ _ _ _ _ _ (isWatching_run _ _ t)). fold pid.
  destruct (watching t pid PROC_EVENT_EXIT); reflexivity.
Qed.

Lemma case_SID_run buf t :
  let pid := int_of_uint32 (sid_ProcessPid (struct_of order buf)) in
  case_SID order buf t =
  if watching t pid PROC_EVENT_SID
  then mkRes (Some ()) (delete pid t)
         (watching_trace t pid ++ [Lock; MapDelete pid; Unlock; ChanSend (OnSid pid)])
  else mkRes (Some ()) t (watching_trace t pid ++ []).
Proof.
  intros pid. unfold case_SID.
  rewrite (run_bind_pure _ _ _ _ (read_run buf t sidProcEvent_value)). simpl.
  rewrite (run_bind _ _ _ _ _ _ (isWatching_run _ _ t)). fold pid.
  destruct (watching t pid PROC_EVENT_SID); reflexivity.
Qed.

(** With a full payload in the buffer, [binary.Read] panics on [eId]
    before the table is consulted; with a short one the event keeps its
    zero value. *)
Lemma case_UID_GID_full buf t :
  (16 ≤ length buf)%nat → case_UID_GID order buf t = mkRes None t [].
Proof.
  intros Hlen. unfold case_UID_GID, read, binary_Read.
  change (dataSize (A := idProcEvent)) with 16%nat.
  destruct (Nat.leb_spec 16 (length buf)) as [_|?]; [|lia].
  rewrite idProcEvent_value. reflexivity.
Qed.

Lemma case_UID_GID_short buf t :
  (length buf < 16)%nat →
  case_UID_GID order buf t =
  if watching t 0 PROC_EVENT_UID
  then mkRes (Some ()) (delete 0 t)
         (watching_trace t 0 ++ [Lock; MapDelete 0; Unlock; ChanSend (OnUid 0)])
  else mkRes (Some ()) t (watching_trace t 0 ++ []).
Proof.
  intros Hlen. unfold case_UID_GID, read, binary_Read.
  change (dataSize (A := idProcEvent)) with 16%nat.
  destruct (Nat.leb_spec 16 (length buf)) as [?|_]; [lia|].
  rewrite run_ret_bind. simpl.
  change (int_of_uint32 0) with 0.
  rewrite (run_bind _ _ _ _ _ _ (isWatching_run _ _ t)).
  destruct (watching t 0 PROC_EVENT_UID); reflexivity.
Qed.

Lemma case_FORK_run buf t :
  let ppid := int_of_uint32 (ParentTgid (struct_of order buf)) in
  let pid := int_of_uint32 (ChildTgid (struct_of order buf)) in
  let t' :=
    if watching t ppid PROC_EVENT_EXEC then
      match matching_entry t ppid with
      | Some m =>
          <[pid := {| flags := from_option (λ e, Z.lor (flags e) (flags m)) (flags m) (t !! pid) |}]> t
      | None => t
      end
    else t in
  let follow :=
    if watching t ppid PROC_EVENT_EXEC then
      MapLoad ppid ::
      match t !! ppid with Some _ => [] | None => [MapLoad ANY] end ++
      match matching_entry t ppid with
      | Some _ => [Lock; MapLoad pid; MapStore pid; Unlock]
      | None => []
      end
    else [] in
  case_FORK order buf t =
  mkRes (Some ()) t'
    (watching_trace t ppid ++ follow ++ watching_trace t' ppid ++
     if watching t' ppid PROC_EVENT_FORK then [ChanSend (OnFork ppid pid)] else []).
Proof.
  intros ppid pid t' follow. unfold case_FORK.
  rewrite (run_bind_pure _ _ _ _ (read_run buf t forkProcEvent_value)).
  cbv beta iota zeta. fold ppid pid.
  rewrite (run_bind _ _ _ _ _ _ (isWatching_run _ _ t)). cbv beta.
  match goal with |- context [(?blk ≫= _) t] =>
    assert (Hb : blk t = mkRes (Some ()) t' follow) end.
  { subst t' follow. unfold matching_entry.
    destruct (watching t ppid PROC_EVENT_EXEC); [|reflexivity].
    rewrite (run_bind (load ppid) _ t _ _ _ eq_refl).
    destruct (t !! ppid) as [m|]; cbv beta iota.
    - rewrite Watch_run. reflexivity.
    - rewrite (run_bind (load ANY) _ t _ _ _ eq_refl).
      destruct (t !! ANY) as [m|]; cbv beta iota.
      + rewrite Watch_run. reflexivity.
      + reflexivity. }
  rewrite (run_bind _ _ _ _ _ _ Hb). cbv beta.
  rewrite (run_bind _ _ _ _ _ _ (isWatching_run _ _ t')). cbv beta.
  destruct (watching t' ppid PROC_EVENT_FORK); reflexivity.
Qed.

End Decoding.

(** ** Integers *)

Lemma lor_below a b n : 0 ≤ n → 0 ≤ a < 2 ^ n → 0 ≤ b < 2 ^ n → 0 ≤ Z.lor a b < 2 ^ n.
Proof.
  intros Hn [Ha Ha'] [Hb Hb'].
  assert (H0 : 0 ≤ Z.lor a b) by (apply Z.lor_nonneg; auto).
  split; [exact H0|].
  destruct (Z.eq_dec (Z.lor a b) 0) as [->|Hne]; [apply Z.pow_pos_nonneg; lia|].
  apply Z.log2_lt_pow2; [lia|].
  rewrite Z.log2_lor by assumption.
  assert (La : Z.log2 a < n ∨ a = 0).
  { destruct (Z.eq_dec a 0); [right; assumption|left; apply Z.log2_lt_pow2; lia]. }
  assert (Lb : Z.log2 b < n ∨ b = 0).
  { destruct (Z.eq_dec b 0); [right; assumption|left; apply Z.log2_lt_pow2; lia]. }
  assert (n ≠ 0).
  { intros ->. change (2 ^ 0) with 1 in *. assert (a = 0) by lia. assert (b = 0) by lia.
    subst. apply Hne. reflexivity. }
  destruct La as [La| ->], Lb as [Lb| ->]; change (Z.log2 0) with 0; lia.
Qed.

Lemma byte_val_range b : 0 ≤ byte_val b < 2 ^ 8.
Proof. destruct b; vm_compute; split; congruence. Qed.

Lemma le_uint_range bs : 0 ≤ le_uint bs < 2 ^ (8 * Z.of_nat (length bs)).
Proof.
  induction bs as [|b bs IH]; [vm_compute; split; congruence|].
  cbn [le_uint length]. pose proof (byte_val_range b) as Hb.
  replace (8 * Z.of_nat (S (length bs))) with (8 * Z.of_nat (length bs) + 8) by lia.
  apply lor_below; [lia| |].
  - split; [lia|]. apply Z.lt_le_trans with (2 ^ 8); [lia|].
    apply Z.pow_le_mono_r; lia.
  - rewrite Z.shiftl_mul_pow2 by lia. rewrite Z.pow_add_r by lia.
    split; [apply Z.mul_nonneg_nonneg; lia|].
    apply Z.mul_lt_mono_pos_r; lia.
Qed.

Lemma uint_at_range order n off bs : 0 ≤ uint_at order n off bs < 2 ^ (8 * Z.of_nat n).
Proof.
  unfold uint_at, uint_of.
  assert (L : (length (take n (drop off bs)) ≤ n)%nat) by (rewrite length_take; lia).
  assert (M : ∀ l : list Byte.byte, (length l ≤ n)%nat → 0 ≤ le_uint l < 2 ^ (8 * Z.of_nat n)).
  { intros l Hl. pose proof (le_uint_range l) as [H1 H2]. split; [exact H1|].
    apply Z.lt_le_trans with (1 := H2). apply Z.pow_le_mono_r; lia. }
  destruct order; apply M; [|rewrite length_rev]; exact L.
Qed.

Lemma int_of_uint32_id x : 0 ≤ x < 2 ^ 32 → int_of_uint32 x = x.
Proof.
  intros Hx. unfold int_of_uint32.
  rewrite Z.mod_small by (split; [lia|]; apply Z.lt_trans with (2 ^ 32); [lia|reflexivity]).
  destruct (Z.ltb_spec x (2 ^ 63)) as [_|H]; [reflexivity|].
  exfalso. assert (2 ^ 32 < 2 ^ 63) by reflexivity. lia.
Qed.

(** A process id taken from the wire is never the wildcard. *)
Lemma int_of_uint32_nonneg x : 0 ≤ x < 2 ^ 32 → 0 ≤ int_of_uint32 x.
Proof. intros Hx. rewrite int_of_uint32_id by exact Hx. lia. Qed.

Lemma land_lor_same e m : Z.land (Z.lor e m) m = m.
Proof.
  apply Z.bits_inj'. intros n _. rewrite Z.land_spec, Z.lor_spec.
  destruct (Z.testbit e n), (Z.testbit m n); reflexivity.
Qed.

Lemma land_trans c m k : Z.land c m = m → Z.land m k = k → Z.land c k = k.
Proof. intros H1 H2. rewrite <- H2, Z.land_assoc, H1. reflexivity. Qed.

(** What [PutUintN] writes, [UintN] reads back. *)
Lemma byte_val_byte_of v : byte_val (byte_of v) = v mod 256.
Proof.
  unfold byte_val, byte_of.
  pose proof (Z.mod_pos_bound v 256 ltac:(lia)) as Hm.
  destruct (Byte.of_N (Z.to_N (v mod 256))) as [b|] eqn:E; cbn [default from_option id].
  - apply Byte.to_of_N in E. rewrite E. lia.
  - apply Byte.of_N_None_iff in E. lia.
Qed.

Lemma lor_shiftl_byte a b : 0 ≤ a < 2 ^ 8 → Z.lor a (Z.shiftl b 8) = a + b * 2 ^ 8.
Proof.
  intros Ha. rewrite <- Z.shiftl_mul_pow2 by lia.
  rewrite <- Z.add_lor_land.
  assert (E : Z.land a (Z.shiftl b 8) = 0); [|rewrite E; lia].
  apply Z.bits_inj'. intros n Hn. rewrite Z.land_spec, Z.bits_0.
  destruct (Z.lt_ge_cases n 8) as [Hlt|Hge].
  - rewrite Z.shiftl_spec_low by exact Hlt. apply andb_false_r.
  - rewrite <- (Z.mod_small a (2 ^ 8)) by exact Ha.
    rewrite Z.mod_pow2_bits_high by lia. reflexivity.
Qed.

Lemma le_uint_le_bytes n v : le_uint (le_bytes n v) = v mod 2 ^ (8 * Z.of_nat n).
Proof.
  revert v. induction n as [|n IH]; intros v.
  - cbn [le_bytes le_uint]. change (2 ^ (8 * Z.of_nat 0)) with 1. rewrite Z.mod_1_r. reflexivity.
  - cbn [le_bytes le_uint]. rewrite IH, byte_val_byte_of.
    rewrite lor_shiftl_byte by (apply Z.mod_pos_bound; lia).
    replace (8 * Z.of_nat (S n)) with (8 + 8 * Z.of_nat n) by lia.
    rewrite Z.pow_add_r by lia. change (2 ^ 8) with 256.
    rewrite Z.rem_mul_r by (try apply Z.pow_pos_nonneg; lia). lia.
Qed.

Lemma uint_of_put_uint order n v :
  0 ≤ v < 2 ^ (8 * Z.of_nat n) → uint_of order (put_uint order n v) = v.
Proof.
  intros Hv. destruct order; cbn [uint_of put_uint]; rewrite ?rev_involutive;
    rewrite le_uint_le_bytes; apply Z.mod_small; exact Hv.
Qed.

Lemma length_put_uint order n v : length (put_uint order n v) = n.
Proof.
  assert (L : ∀ n v, length (le_bytes n v) = n).
  { clear. induction n as [|n IH]; intros v; cbn [le_bytes length]; [|rewrite IH]; reflexivity. }
  destruct order; cbn [put_uint]; rewrite ?length_rev; apply L.
Qed.

Lemma uint_at_here order n v rest :
  0 ≤ v < 2 ^ (8 * Z.of_nat n) → uint_at order n 0 (put_uint order n v ++ rest) = v.
Proof.
  intros Hv. unfold uint_at. rewrite drop_0.
  rewrite take_app_length' by (symmetry; apply length_put_uint).
  apply uint_of_put_uint. exact Hv.
Qed.

Lemma uint_at_skip order n k off pre rest :
  k = length pre → uint_at order n (k + off) (pre ++ rest) = uint_at order n off rest.
Proof. intros Hk. unfold uint_at. rewrite drop_app_add' by exact Hk. reflexivity. Qed.

(** [binary.Read] on a buffer that starts with the bytes of a whole
    structure. *)
Lemma binary_Read_app {A} `{BinaryData A} order pre rest :
  length pre = dataSize →
  binary_Read (A := A) (pre ++ rest) order =
  (match value order pre with Some a => ReadOk a | None => ReadPanic end, rest).
Proof.
  intros Hlen. unfold binary_Read.
  destruct (Nat.leb_spec dataSize (length (pre ++ rest))) as [_|Hlt].
  - rewrite take_app_length', drop_app_length' by (symmetry; exact Hlen). reflexivity.
  - rewrite length_app in Hlt. lia.
Qed.

(** The bytes of [event_bytes] decode to the kind and the payload they
    were built from. *)
Lemma event_bytes_decoded order what fields :
  0 ≤ what < 2 ^ 32 →
  What (event_header order (event_bytes order what fields)) = what ∧
  event_payload order (event_bytes order what fields)
  = concat (map (put_uint order 4) fields).
Proof.
  intros Hw. unfold event_header, event_payload, struct_of, rest_of, event_bytes.
  cbv zeta.
  rewrite (binary_Read_app (A := cnMsg)) by
    (unfold cn_msg_bytes; rewrite !length_app, !length_put_uint; reflexivity).
  cbn [fst snd].
  rewrite (binary_Read_app (A := procEventHeader)) by
    (unfold event_header_bytes; rewrite !length_app, !length_put_uint; reflexivity).
  split; [|reflexivity].
  cbn. unfold event_header_bytes. apply uint_at_here. exact Hw.
Qed.

Lemma binary_Read_exact {A} `{BinaryData A} order buf :
  length buf = dataSize →
  binary_Read (A := A) buf order =
  (match value order buf with Some a => ReadOk a | None => ReadPanic end, []).
Proof.
  intros Hlen. rewrite <- (app_nil_r buf) at 1. apply binary_Read_app. exact Hlen.
Qed.

Lemma exec_event_bytes order p pid :
  0 ≤ pid < 2 ^ 32 → is_exec_event order (event_bytes order PROC_EVENT_EXEC [p; pid]) pid.
Proof.
  intros Hpid. unfold is_exec_event.
  destruct (event_bytes_decoded order PROC_EVENT_EXEC [p; pid]) as [-> ->];
    [split; [discriminate|reflexivity]|].
  split; [reflexivity|].
  unfold struct_of. cbn [concat map].
  rewrite (binary_Read_exact (A := execProcEvent)) by
    (rewrite !length_app, !length_put_uint; reflexivity).
  change (value (A := execProcEvent) order ?b)
    with (Some {| exec_ProcessPid := uint_at order 4 0 b;
                  exec_ProcessTgid := uint_at order 4 4 b |}).
  cbn [fst exec_ProcessTgid].
  rewrite (uint_at_skip order 4 4 0) by (symmetry; apply length_put_uint).
  rewrite uint_at_here by exact Hpid.
  apply int_of_uint32_id. exact Hpid.
Qed.

Lemma exit_event_bytes order p pid code sig :
  0 ≤ pid < 2 ^ 32 →
  is_exit_event order (event_bytes order PROC_EVENT_EXIT [p; pid; code; sig]) pid.
Proof.
  intros Hpid. unfold is_exit_event.
  destruct (event_bytes_decoded order PROC_EVENT_EXIT [p; pid; code; sig]) as [-> ->];
    [split; [discriminate|reflexivity]|].
  split; [reflexivity|].
  unfold struct_of. cbn [concat map].
  rewrite (binary_Read_exact (A := exitProcEvent)) by
    (rewrite !length_app, !length_put_uint; reflexivity).
  change (value (A := exitProcEvent) order ?b)
    with (Some {| exit_ProcessPid := uint_at order 4 0 b;
                  exit_ProcessTgid := uint_at order 4 4 b;
                  ExitCode := uint_at order 4 8 b;
                  ExitSignal := uint_at order 4 12 b |}).
  cbn [fst exit_ProcessTgid].
  rewrite (uint_at_skip order 4 4 0) by (symmetry; apply length_put_uint).
  rewrite uint_at_here by exact Hpid.
  apply int_of_uint32_id. exact Hpid.
Qed.

Lemma fork_event_bytes order pt ppid ct pid :
  0 ≤ ppid < 2 ^ 32 → 0 ≤ pid < 2 ^ 32 →
  is_fork_event order (event_bytes order PROC_EVENT_FORK [pt; ppid; ct; pid]) ppid pid.
Proof.
  intros Hppid Hpid. unfold is_fork_event.
  destruct (event_bytes_decoded order PROC_EVENT_FORK [pt; ppid; ct; pid]) as [-> ->];
    [split; [discriminate|reflexivity]|].
  split; [reflexivity|].
  unfold struct_of. cbn [concat map].
  rewrite (binary_Read_exact (A := forkProcEvent)) by
    (rewrite !length_app, !length_put_uint; reflexivity).
  change (value (A := forkProcEvent) order ?b)
    with (Some {| ParentPid := uint_at order 4 0 b;
                  ParentTgid := uint_at order 4 4 b;
                  ChildPid := uint_at order 4 8 b;
                  ChildTgid := uint_at order 4 12 b |}).
  cbn [fst ParentTgid ChildTgid].
  rewrite (uint_at_skip order 4 4 0) by (symmetry; apply length_put_uint).
  rewrite (uint_at_skip order 4 4 8) by (symmetry; apply length_put_uint).
  rewrite (uint_at_skip order 4 4 4) by (symmetry; apply length_put_uint).
  rewrite (uint_at_skip order 4 4 0) by (symmetry; apply length_put_uint).
  rewrite !uint_at_here by assumption.
  rewrite !int_of_uint32_id by assumption. split; reflexivity.
Qed.

(** ** Netlink messages *)

Lemma nlmAlignOf_spec n : syscall.nlmAlignOf n = 4 * ((n + 3) / 4).
Proof.
  unfold syscall.nlmAlignOf.
  rewrite <- Z.ldiff_land. change 3 with (Z.ones 2) at 2.
  rewrite Z.ldiff_ones_r by lia.
  rewrite Z.shiftr_div_pow2, Z.shiftl_mul_pow2 by lia.
  change (2 ^ 2) with 4. lia.
Qed.

Lemma nlmAlignOf_ge n : n ≤ syscall.nlmAlignOf n.
Proof.
  rewrite nlmAlignOf_spec.
  pose proof (Z.div_mod (n + 3) 4 ltac:(lia)) as Hd.
  pose proof (Z.mod_pos_bound (n + 3) 4 ltac:(lia)) as Hm.
  lia.
Qed.

(** The fuel of [ParseNetlinkMessage] is enough: any larger amount gives
    the same messages. *)
Lemma parse_loop_fuel order fuel b msgs :
  (length b ≤ fuel)%nat →
  syscall.parse_loop fuel order b msgs = syscall.parse_loop (length b) order b msgs.
Proof.
  revert b msgs.
  assert (Hgen : ∀ n m b msgs, (length b ≤ n)%nat → (length b ≤ m)%nat →
            syscall.parse_loop n order b msgs = syscall.parse_loop m order b msgs).
  { induction n as [|n IH]; intros m b msgs Hn Hm.
    - destruct m as [|m]; [reflexivity|]. cbn [syscall.parse_loop].
      destruct (Nat.leb_spec NLMSG_HDRLEN (length b)) as [H|H]; [|reflexivity].
      unfold NLMSG_HDRLEN in H. lia.
    - destruct m as [|m].
      + cbn [syscall.parse_loop].
        destruct (Nat.leb_spec NLMSG_HDRLEN (length b)) as [H|H]; [|reflexivity].
        unfold NLMSG_HDRLEN in H. lia.
      + cbn [syscall.parse_loop].
        destruct (Nat.leb_spec NLMSG_HDRLEN (length b)) as [H|H]; [|reflexivity].
        set (h := syscall.header_at order b).
        destruct (Z.ltb_spec (syscall.Len h) (Z.of_nat NLMSG_HDRLEN)) as [|Hlen];
          [reflexivity|].
        destruct (Z.ltb_spec (Z.of_nat (length b)) (syscall.nlmAlignOf (syscall.Len h)))
          as [|Hfit]; [reflexivity|].
        cbn [orb].
        pose proof (nlmAlignOf_ge (syscall.Len h)) as Hge.
        unfold NLMSG_HDRLEN in *.
        apply IH; rewrite length_drop; lia. }
  intros b msgs Hfuel. apply Hgen; [exact Hfuel|lia].
Qed.

Example parse_two_messages :
  let d := datagram_of LittleEndian [Byte.x01; Byte.x02; Byte.x03; Byte.x04] in
  option_map (map syscall.Data) (syscall.ParseNetlinkMessage LittleEndian (d ++ d))
  = Some [[Byte.x01; Byte.x02; Byte.x03; Byte.x04]; [Byte.x01; Byte.x02; Byte.x03; Byte.x04]].
Proof. vm_compute. reflexivity. Qed.

(** The thread-group and process ids of a decoded payload are 32-bit
    values, whether the payload was complete or left at zero. *)
Lemma fork_ids_range order buf :
  let ev := struct_of (A := forkProcEvent) order buf in
  0 ≤ ParentTgid ev < 2 ^ 32 ∧ 0 ≤ ChildTgid ev < 2 ^ 32.
Proof.
  unfold struct_of, binary_Read.
  destruct (dataSize <=? length buf)%nat; simpl.
  - split; apply (uint_at_range order 4).
  - split; split; reflexivity.
Qed.

Lemma exit_id_range order buf :
  0 ≤ exit_ProcessTgid (struct_of (A := exitProcEvent) order buf) < 2 ^ 32.
Proof.
  unfold struct_of, binary_Read.
  destruct (dataSize <=? length buf)%nat; simpl.
  - apply (uint_at_range order 4).
  - split; reflexivity.
Qed.

Lemma sid_id_range order buf :
  0 ≤ sid_ProcessPid (struct_of (A := sidProcEvent) order buf) < 2 ^ 32.
Proof.
  unfold struct_of, binary_Read.
  destruct (dataSize <=? length buf)%nat; simpl.
  - apply (uint_at_range order 4).
  - split; reflexivity.
Qed.

(** [binary.Read] on a buffer that is too short. *)
Lemma binary_Read_short {A} `{BinaryData A} order buf :
  (length buf < dataSize)%nat → binary_Read (A := A) buf order = (ReadErr zero, []).
Proof.
  intros Hlen. unfold binary_Read.
  destruct (Nat.leb_spec dataSize (length buf)); [lia|reflexivity].
Qed.

Lemma rest_of_length A `{BinaryData A} order buf :
  length (rest_of A order buf) = (length buf - dataSize)%nat.
Proof.
  unfold rest_of, binary_Read.
  destruct (Nat.leb_spec dataSize (length buf)); simpl.
  - apply length_drop.
  - lia.
Qed.

(** When the connector header or the event header is cut short, the
    event header keeps its zero value and nothing is left in the
    buffer. *)
Lemma event_header_short order data :
  (length data < 20 + 16)%nat →
  event_header order data = zero ∧ event_payload order data = [].
Proof.
  intros Hlen. unfold event_header, event_payload, struct_of.
  assert (Hrest : (length (rest_of cnMsg order data) < dataSize (A := procEventHeader))%nat).
  { rewrite rest_of_length. change (dataSize (A := cnMsg)) with 20%nat.
    change (dataSize (A := procEventHeader)) with 16%nat. lia. }
  unfold rest_of at 2. rewrite (binary_Read_short _ _ Hrest).
  split; reflexivity.
Qed.

Lemma sent_watching_trace t pid : sent (watching_trace t pid) = [].
Proof. unfold watching_trace. destruct (t !! pid); reflexivity. Qed.

Lemma disciplined_watching_trace t pid rest :
  disciplined false (watching_trace t pid ++ rest) = disciplined false rest.
Proof. unfold watching_trace. destruct (t !! pid); reflexivity. Qed.

(** ** The watch table: [isWatching] *)

(** C5. [isWatching(pid, kind)] always returns; it returns true exactly
    when the entry of [pid] has [kind] set in its mask or, [pid] having
    no entry, the wildcard entry has [kind] set. When [pid] has an entry,
    that entry alone decides: any other table with the same entry for
    [pid], whatever its wildcard entry, gives the same answer. *)
Theorem isWatching_explicit_then_wildcard (t : gmap Z watch) (pid kind : Z) :
  (∃ b, result (isWatching pid kind t) = Some b ∧ table (isWatching pid kind t) = t) ∧
  (result (isWatching pid kind t) = Some true ↔
     (∃ e, t !! pid = Some e ∧ Z.land (flags e) kind = kind) ∨
     (t !! pid = None ∧ ∃ e, t !! ANY = Some e ∧ Z.land (flags e) kind = kind)) ∧
  (∀ e (t' : gmap Z watch),
     t !! pid = Some e → t' !! pid = Some e →
     result (isWatching pid kind t') = result (isWatching pid kind t)).
Proof.
  rewrite isWatching_run. cbn [result table].
  split; [eexists; split; reflexivity|]. split.
  - unfold watching, matching_entry, has_kind. split.
    + intros H. injection H as H. destruct (t !! pid) as [e|] eqn:Hp.
      * left. exists e. split; [reflexivity|]. apply Z.eqb_eq. exact H.
      * right. split; [reflexivity|]. destruct (t !! ANY) as [e|]; [|discriminate].
        exists e. split; [reflexivity|]. apply Z.eqb_eq. exact H.
    + intros [(e & -> & H)|(-> & e & -> & H)]; simpl; f_equal; apply Z.eqb_eq; exact H.
  - intros e t' Hp Hp'. rewrite isWatching_run. cbn [result].
    unfold watching, matching_entry. rewrite Hp, Hp'. reflexivity.
Qed.

Lemma isWatching_explicit_then_wildcard_witness :
  result (isWatching 100 PROC_EVENT_EXEC (table_of [(100, PROC_EVENT_FORK); (ANY, PROC_EVENT_ALL)]))
  = result (isWatching 100 PROC_EVENT_EXEC (table_of [(100, PROC_EVENT_FORK)])).
Proof.
  apply (proj2 (proj2 (isWatching_explicit_then_wildcard
                         (table_of [(100, PROC_EVENT_FORK)]) 100 PROC_EVENT_EXEC))
           {| flags := PROC_EVENT_FORK |});
    reflexivity.
Defined.

(** ** The dispatcher: [handleEvent] *)

Lemma handleEvent_other_kind order (data : list Byte.byte) (t : gmap Z watch) :
  ¬ In (What (event_header order data)) handled_kinds →
  handleEvent order data t = mkRes (Some ()) t [].
Proof.
  intros Hk. rewrite handleEvent_run. cbv zeta.
  set (what := What (event_header order data)) in *.
  unfold handled_kinds in Hk. cbn [In] in Hk.
  destruct (Z.eqb_spec what PROC_EVENT_FORK) as [E|_]; [symmetry in E; tauto|].
  destruct (Z.eqb_spec what PROC_EVENT_EXEC) as [E|_]; [symmetry in E; tauto|].
  destruct (Z.eqb_spec what PROC_EVENT_EXIT) as [E|_]; [symmetry in E; tauto|].
  destruct (Z.eqb_spec what PROC_EVENT_UID) as [E|_]; [symmetry in E; tauto|].
  destruct (Z.eqb_spec what PROC_EVENT_GID) as [E|_]; [symmetry in E; tauto|].
  destruct (Z.eqb_spec what PROC_EVENT_SID) as [E|_]; [symmetry in E; tauto|].
  reflexivity.
Qed.

(** C8. A message whose event-header kind is none of the kinds the
    switch has a case for (kind 0, a kind outside the enumeration of the
    constants, and also ptrace, comm and coredump) is dropped silently:
    [handleEvent] returns, the table is as before, and nothing is sent
    on any channel, the error channel included. *)
Theorem unrecognised_kind_ignored order (data : list Byte.byte) (t : gmap Z watch) :
  ¬ In (What (event_header order data)) handled_kinds →
  result (handleEvent order data t) = Some () ∧
  table (handleEvent order data t) = t ∧
  effects (handleEvent order data t) = [].
Proof.
  intros Hk. rewrite (handleEvent_other_kind _ _ _ Hk). repeat split.
Qed.

(** In particular for a kind outside the enumeration of the constants. *)
Lemma outside_enumeration_ignored order (data : list Byte.byte) (t : gmap Z watch) :
  ¬ In (What (event_header order data)) known_kinds →
  handleEvent order data t = mkRes (Some ()) t [].
Proof.
  intros Hk. apply handleEvent_other_kind. intros Hin. apply Hk.
  unfold known_kinds. apply in_or_app. left. exact Hin.
Qed.

Lemma unrecognised_kind_ignored_witness :
  effects (handleEvent LittleEndian (event_bytes LittleEndian 0 [100; 100])
             (table_of [(ANY, PROC_EVENT_ALL)])) = [].
Proof.
  apply (unrecognised_kind_ignored LittleEndian (event_bytes LittleEndian 0 [100; 100])).
  vm_compute. lia.
Defined.

(** The case the switch takes. *)
Lemma handleEvent_FORK order data t :
  What (event_header order data) = PROC_EVENT_FORK →
  handleEvent order data t = case_FORK order (event_payload order data) t.
Proof. intros E. rewrite handleEvent_run. cbv zeta. rewrite E. reflexivity. Qed.

Lemma handleEvent_EXEC order data t :
  What (event_header order data) = PROC_EVENT_EXEC →
  handleEvent order data t = case_EXEC order (event_payload order data) t.
Proof. intros E. rewrite handleEvent_run. cbv zeta. rewrite E. reflexivity. Qed.

Lemma handleEvent_EXIT order data t :
  What (event_header order data) = PROC_EVENT_EXIT →
  handleEvent order data t = case_EXIT order (event_payload order data) t.
Proof. intros E. rewrite handleEvent_run. cbv zeta. rewrite E. reflexivity. Qed.

Lemma handleEvent_UID_GID order data t :
  What (event_header order data) = PROC_EVENT_UID ∨
  What (event_header order data) = PROC_EVENT_GID →
  handleEvent order data t = case_UID_GID order (event_payload order data) t.
Proof. intros [E|E]; rewrite handleEvent_run; cbv zeta; rewrite E; reflexivity. Qed.

Lemma handleEvent_SID order data t :
  What (event_header order data) = PROC_EVENT_SID →
  handleEvent order data t = case_SID order (event_payload order data) t.
Proof. intros E. rewrite handleEvent_run. cbv zeta. rewrite E. reflexivity. Qed.

Lemma watching_trace_reads t pid : forallb (λ e, negb (mutates e)) (watching_trace t pid) = true.
Proof. unfold watching_trace. destruct (t !! pid); reflexivity. Qed.

(** C10. Handling an exec event leaves the watch table as it was: the
    table after is the table before, no effect of the run stores into or
    deletes from the map, so [isWatching] answers the same for every pid
    and kind; the run returns, and all it sends is the exec event for the
    pid, exactly when [isWatching(pid, PROC_EVENT_EXEC)] holds. *)
Theorem exec_leaves_table order (data : list Byte.byte) (t : gmap Z watch) (pid : Z) :
  is_exec_event order data pid →
  let r := handleEvent order data t in
  result r = Some () ∧
  table r = t ∧
  forallb (λ e, negb (mutates e)) (effects r) = true ∧
  (∀ p kind, isWatching p kind (table r) = isWatching p kind t) ∧
  ∃ b, result (isWatching pid PROC_EVENT_EXEC t) = Some b ∧
       sent (effects r) = if b then [OnExec pid] else [].
Proof.
  intros [Hk Hpid] r. subst r.
  rewrite (handleEvent_EXEC _ _ _ Hk), case_EXEC_run. cbv zeta. rewrite Hpid.
  cbn [result table effects].
  split; [reflexivity|]. split; [reflexivity|]. split; [|split; [reflexivity|]].
  - rewrite forallb_app, watching_trace_reads.
    destruct (watching t pid PROC_EVENT_EXEC); reflexivity.
  - exists (watching t pid PROC_EVENT_EXEC). rewrite isWatching_run. split; [reflexivity|].
    rewrite sent_app, sent_watching_trace.
    destruct (watching t pid PROC_EVENT_EXEC); reflexivity.
Qed.

Lemma exec_leaves_table_witness :
  table (handleEvent LittleEndian (event_bytes LittleEndian PROC_EVENT_EXEC [101; 100])
           (table_of [(100, PROC_EVENT_EXEC)]))
  = table_of [(100, PROC_EVENT_EXEC)].
Proof.
  apply (exec_leaves_table LittleEndian
           (event_bytes LittleEndian PROC_EVENT_EXEC [101; 100])
           (table_of [(100, PROC_EVENT_EXEC)]) 100).
  split; reflexivity.
Defined.

(** ** The read loop: [readEvents] *)

(** C7. A datagram shorter than the netlink header does not stop the
    loop: [readEvents] sends one error, [EINVAL], on the error channel
    for it, touches nothing else, and goes on with the following
    receives exactly as it would have without that datagram. *)
Theorem short_datagram_one_error order (datagram : list Byte.byte)
    (rest : list Recvfrom) (t : gmap Z watch) :
  (length datagram < NLMSG_HDRLEN)%nat →
  let r := readEvents order rest t in
  readEvents order (RecvOk datagram :: rest) t =
  mkRes (result r) (table r) (ChanSend (OnError EINVAL) :: effects r).
Proof.
  intros Hlen r. cbn [readEvents].
  destruct (Nat.ltb_spec (length datagram) NLMSG_HDRLEN) as [_|?]; [|lia].
  rewrite (run_bind (send (OnError EINVAL)) _ t () t [ChanSend (OnError EINVAL)] eq_refl).
  reflexivity.
Qed.

(** A datagram that holds one message of type [NLMSG_DONE] is handed to
    [handleEvent], and the loop goes on from the table it leaves. *)
Lemma readEvents_one_message order datagram m rest t :
  (NLMSG_HDRLEN ≤ length datagram)%nat →
  syscall.ParseNetlinkMessage order datagram = Some [m] →
  syscall.Type_ (syscall.Header m) = NLMSG_DONE →
  readEvents order (RecvOk datagram :: rest) t =
  (handleEvent order (syscall.Data m) ;; readEvents order rest) t.
Proof.
  intros Hlen Hparse Htype. cbn [readEvents].
  destruct (Nat.ltb_spec (length datagram) NLMSG_HDRLEN) as [?|_]; [lia|].
  rewrite Hparse. unfold default. cbn [from_option id for_range]. rewrite Htype, Z.eqb_refl.
  apply run_bind_ext. apply run_bind_ret.
Qed.

Lemma short_datagram_one_error_witness :
  readEvents LittleEndian
    [RecvOk [Byte.x01; Byte.x02];
     RecvOk (datagram_of LittleEndian (event_bytes LittleEndian PROC_EVENT_EXEC [101; 100]))]
    (table_of [(100, PROC_EVENT_EXEC)])
  = let r := readEvents LittleEndian
               [RecvOk (datagram_of LittleEndian
                          (event_bytes LittleEndian PROC_EVENT_EXEC [101; 100]))]
               (table_of [(100, PROC_EVENT_EXEC)]) in
    mkRes (result r) (table r) (ChanSend (OnError EINVAL) :: effects r).
Proof.
  apply (short_datagram_one_error LittleEndian [Byte.x01; Byte.x02]).
  unfold NLMSG_HDRLEN. simpl. lia.
Defined.

(** The run of the witness: one error for the short datagram, then the
    exec event of the datagram that follows. *)
Example short_then_valid_datagram :
  sent (effects (readEvents LittleEndian
    [RecvOk [Byte.x01; Byte.x02];
     RecvOk (datagram_of LittleEndian (event_bytes LittleEndian PROC_EVENT_EXEC [101; 100]))]
    (table_of [(100, PROC_EVENT_EXEC)])))
  = [OnError EINVAL; OnExec 100].
Proof. vm_compute. reflexivity. Qed.

(** ** The dispatcher: decode failures *)

(** All a fork event can send is the fork event. *)
Lemma case_FORK_sent order buf t :
  ∃ b : bool,
    sent (effects (case_FORK order buf t)) =
    if b then [OnFork (int_of_uint32 (ParentTgid (struct_of order buf)))
                      (int_of_uint32 (ChildTgid (struct_of order buf)))]
    else [].
Proof.
  pose proof (case_FORK_run order buf t) as H. cbv zeta in H. rewrite H. clear H.
  set (ppid := int_of_uint32 (ParentTgid (struct_of order buf))).
  set (pid := int_of_uint32 (ChildTgid (struct_of order buf))).
  cbn [effects]. rewrite sent_app, sent_watching_trace. cbn [app].
  destruct (watching t ppid PROC_EVENT_EXEC).
  - cbn [app sent]. rewrite !sent_app, sent_watching_trace.
    destruct (t !! ppid), (matching_entry t ppid); cbn [sent app];
      match goal with |- context [sent (if ?c then _ else _)] =>
        exists c; destruct c; reflexivity end.
  - cbn [app]. rewrite sent_app, sent_watching_trace.
    match goal with |- context [sent (if ?c then _ else _)] =>
      exists c; destruct c; reflexivity end.
Qed.

(** What [handleEvent] sends never goes to the error channel. *)
Lemma handleEvent_sends_no_error order data t :
  forallb (λ m, negb (is_error m)) (sent (effects (handleEvent order data t))) = true.
Proof.
  rewrite handleEvent_run. cbv zeta.
  destruct (What (event_header order data) =? PROC_EVENT_FORK).
  { destruct (case_FORK_sent order (event_payload order data) t) as [[] ->]; reflexivity. }
  destruct (What (event_header order data) =? PROC_EVENT_EXEC).
  { rewrite case_EXEC_run. cbv zeta. cbn [effects].
    rewrite sent_app, sent_watching_trace.
    split_if; reflexivity. }
  destruct (What (event_header order data) =? PROC_EVENT_EXIT).
  { rewrite case_EXIT_run. cbv zeta.
    split_if;
      cbn [effects]; rewrite sent_app, sent_watching_trace; reflexivity. }
  destruct ((What (event_header order data) =? PROC_EVENT_UID)
            || (What (event_header order data) =? PROC_EVENT_GID)).
  { destruct (le_lt_dec 16 (length (event_payload order data))) as [Hl|Hl].
    - rewrite (case_UID_GID_full _ _ _ Hl). reflexivity.
    - rewrite (case_UID_GID_short _ _ _ Hl).
      split_if;
        cbn [effects]; rewrite sent_app, sent_watching_trace; reflexivity. }
  destruct (What (event_header order data) =? PROC_EVENT_SID).
  { rewrite case_SID_run. cbv zeta.
    split_if;
      cbn [effects]; rewrite sent_app, sent_watching_trace; reflexivity. }
  reflexivity.
Qed.

(** C4, as the code has it. [handleEvent] drops the errors of
    [binary.Read]: whatever the message, nothing it sends goes to the
    error channel. A message too short for the connector header and the
    event header is discarded without a trace: [handleEvent] returns,
    the table is as before, nothing is sent on any channel. *)
Theorem decode_failure_discarded_silently order (data : list Byte.byte) (t : gmap Z watch) :
  forallb (λ m, negb (is_error m)) (sent (effects (handleEvent order data t))) = true ∧
  ((length data < dataSize (A := cnMsg) + dataSize (A := procEventHeader))%nat →
   handleEvent order data t = mkRes (Some ()) t []).
Proof.
  split; [apply handleEvent_sends_no_error|].
  intros Hlen. apply handleEvent_other_kind.
  destruct (event_header_short order data Hlen) as [-> _].
  vm_compute. intuition discriminate.
Qed.

Lemma decode_failure_discarded_silently_witness :
  handleEvent LittleEndian [Byte.x01; Byte.x00; Byte.x00; Byte.x00]
    (table_of [(ANY, PROC_EVENT_ALL)])
  = mkRes (Some ()) (table_of [(ANY, PROC_EVENT_ALL)]) [].
Proof.
  apply (proj2 (decode_failure_discarded_silently LittleEndian
                  [Byte.x01; Byte.x00; Byte.x00; Byte.x00]
                  (table_of [(ANY, PROC_EVENT_ALL)]))).
  simpl. lia.
Defined.

(** C4 as stated fails. An exec event whose payload is missing cannot
    be decoded, yet no error is published and a typed event is emitted:
    the payload reads as zero, and with a wildcard subscription an exec
    event for pid 0 goes out. A message cut before the event header
    publishes no error either. *)
Lemma decode_failure_not_reported :
  let t := table_of [(ANY, PROC_EVENT_EXEC)] in
  let data := event_bytes LittleEndian PROC_EVENT_EXEC [] in
  ((length (event_payload LittleEndian data) < dataSize (A := execProcEvent))%nat ∧
   sent (effects (handleEvent LittleEndian data t)) = [OnExec 0]) ∧
  ((length (take 10 data) < dataSize (A := cnMsg))%nat ∧
   sent (effects (handleEvent LittleEndian (take 10 data) t)) = []).
Proof. vm_compute. repeat split; lia. Qed.

(** ** The dispatcher: exit *)

Lemma watching_after_delete t pid kind :
  pid ≠ ANY →
  watching (delete pid t) pid kind = from_option (λ e, has_kind e kind) false (t !! ANY).
Proof.
  intros Hne. unfold watching, matching_entry.
  rewrite lookup_delete_eq, lookup_delete_ne by exact Hne. reflexivity.
Qed.

(** C2, as the code has it. When [pid] is watched for exit and its exit
    event is handled, the run returns, the entry of [pid] is deleted
    from the table, nothing else in the table changes, and the exit
    event is sent. From then on [isWatching(pid, kind)] is the mask test
    of the wildcard entry, for every kind; with no wildcard entry in the
    table it is false for every kind. *)
Theorem exit_removes_entry order (data : list Byte.byte) (t : gmap Z watch) (pid : Z) :
  is_exit_event order data pid →
  result (isWatching pid PROC_EVENT_EXIT t) = Some true →
  let r := handleEvent order data t in
  result r = Some () ∧
  table r = delete pid t ∧
  sent (effects r) = [OnExit pid] ∧
  (∀ kind, result (isWatching pid kind (table r))
           = Some (from_option (λ e, has_kind e kind) false (t !! ANY))) ∧
  (t !! ANY = None → ∀ kind, result (isWatching pid kind (table r)) = Some false).
Proof.
  intros [Hk Hpid] Hw r. subst r.
  rewrite isWatching_run in Hw. injection Hw as Hw.
  assert (Hne : pid ≠ ANY).
  { pose proof (int_of_uint32_nonneg _ (exit_id_range order (event_payload order data))).
    unfold ANY. lia. }
  rewrite (handleEvent_EXIT _ _ _ Hk), case_EXIT_run. cbv zeta.
  rewrite Hpid, Hw. cbn [result table effects].
  rewrite sent_app, sent_watching_trace.
  split; [reflexivity|]. split; [reflexivity|]. split; [reflexivity|].
  assert (Hafter : ∀ kind, result (isWatching pid kind (delete pid t))
                           = Some (from_option (λ e, has_kind e kind) false (t !! ANY))).
  { intros kind. rewrite isWatching_run. cbn [result].
    rewrite (watching_after_delete _ _ _ Hne). reflexivity. }
  split; [exact Hafter|].
  intros Hany kind. rewrite Hafter, Hany. reflexivity.
Qed.

Lemma exit_removes_entry_witness :
  table (handleEvent LittleEndian (event_bytes LittleEndian PROC_EVENT_EXIT [101; 100; 0; 0])
           (table_of [(100, Z.lor PROC_EVENT_EXEC PROC_EVENT_EXIT)]))
  = delete 100 (table_of [(100, Z.lor PROC_EVENT_EXEC PROC_EVENT_EXIT)]).
Proof.
  apply (exit_removes_entry LittleEndian
           (event_bytes LittleEndian PROC_EVENT_EXIT [101; 100; 0; 0])
           (table_of [(100, Z.lor PROC_EVENT_EXEC PROC_EVENT_EXIT)]) 100).
  - split; reflexivity.
  - reflexivity.
Defined.

(** C2 as stated fails. With a wildcard subscription next to the entry
    of pid 100, pid 100 is watched for exit, its exit event is handled,
    and [isWatching(100, kind)] is still true afterwards for the kinds
    of the wildcard. *)
Lemma exit_then_still_watching :
  let t := table_of [(100, PROC_EVENT_EXIT); (ANY, PROC_EVENT_ALL)] in
  let data := event_bytes LittleEndian PROC_EVENT_EXIT [101; 100; 0; 0] in
  is_exit_event LittleEndian data 100 ∧
  result (isWatching 100 PROC_EVENT_EXIT t) = Some true ∧
  result (isWatching 100 PROC_EVENT_EXIT (table (handleEvent LittleEndian data t))) = Some true ∧
  result (isWatching 100 PROC_EVENT_EXEC (table (handleEvent LittleEndian data t))) = Some true.
Proof. vm_compute. repeat split. Qed.

(** ** The dispatcher: fork *)

(** The table after a fork event whose parent is watched for exec: the
    child has an entry that includes the mask of the entry that answered
    for the parent. *)
Lemma fork_follow_table order buf t :
  let ppid := int_of_uint32 (ParentTgid (struct_of order buf)) in
  let pid := int_of_uint32 (ChildTgid (struct_of order buf)) in
  watching t ppid PROC_EVENT_EXEC = true →
  ∃ m c, matching_entry t ppid = Some m ∧
         has_kind m PROC_EVENT_EXEC = true ∧
         table (case_FORK order buf t) !! pid = Some c ∧
         Z.land (flags c) (flags m) = flags m.
Proof.
  intros ppid pid Hw.
  pose proof (case_FORK_run order buf t) as H. cbv zeta in H. rewrite H. clear H.
  fold ppid pid. rewrite Hw. cbn [table].
  unfold watching in Hw.
  destruct (matching_entry t ppid) as [m|]; [|discriminate].
  exists m. eexists. split; [reflexivity|]. split; [exact Hw|].
  split; [apply lookup_insert_eq|]. cbn [flags].
  destruct (t !! pid) as [e|]; cbn [from_option].
  - apply land_lor_same.
  - apply Z.land_diag.
Qed.

(** C1. When the parent of a fork event is watched for exec, by its own
    entry or by the wildcard entry, handling the event returns and leaves
    the child with an entry whose mask includes the mask of the entry
    that answered for the parent; the child is then watched for exec, and
    an exec event for the child handled next is sent on the exec
    channel. *)
Theorem fork_follow order (data : list Byte.byte) (t : gmap Z watch) (ppid pid : Z) :
  is_fork_event order data ppid pid →
  result (isWatching ppid PROC_EVENT_EXEC t) = Some true →
  let r := handleEvent order data t in
  result r = Some () ∧
  (∃ m c, matching_entry t ppid = Some m ∧
          table r !! pid = Some c ∧
          Z.land (flags c) (flags m) = flags m) ∧
  result (isWatching pid PROC_EVENT_EXEC (table r)) = Some true ∧
  (∀ data', is_exec_event order data' pid →
     sent (effects (handleEvent order data' (table r))) = [OnExec pid]).
Proof.
  intros (Hk & Hppid & Hpid) Hw r. subst r.
  rewrite isWatching_run in Hw. injection Hw as Hw.
  rewrite (handleEvent_FORK _ _ _ Hk).
  rewrite <- Hppid in Hw.
  destruct (fork_follow_table order (event_payload order data) t Hw)
    as (m & c & Hm & Hexec & Hc & Hmask).
  rewrite Hppid, Hpid in *.
  assert (Hchild : watching (table (case_FORK order (event_payload order data) t))
                     pid PROC_EVENT_EXEC = true).
  { unfold watching, matching_entry. rewrite Hc. cbn [from_option].
    unfold has_kind in *. apply Z.eqb_eq. apply Z.eqb_eq in Hexec.
    exact (land_trans _ _ _ Hmask Hexec). }
  split.
  { pose proof (case_FORK_run order (event_payload order data) t) as H.
    cbv zeta in H. rewrite H. reflexivity. }
  split; [exists m, c; auto|].
  split; [rewrite isWatching_run; cbn [result]; rewrite Hchild; reflexivity|].
  intros data' [Hk' Hpid'].
  rewrite (handleEvent_EXEC _ _ _ Hk'), case_EXEC_run. cbv zeta. rewrite Hpid'.
  cbn [effects]. rewrite sent_app, sent_watching_trace, Hchild. reflexivity.
Qed.

Lemma fork_follow_witness :
  result (isWatching 200 PROC_EVENT_EXEC
            (table (handleEvent LittleEndian
                      (event_bytes LittleEndian PROC_EVENT_FORK [100; 100; 200; 200])
                      (table_of [(ANY, Z.lor PROC_EVENT_EXEC PROC_EVENT_EXIT)]))))
  = Some true.
Proof.
  apply (fork_follow LittleEndian
           (event_bytes LittleEndian PROC_EVENT_FORK [100; 100; 200; 200])
           (table_of [(ANY, Z.lor PROC_EVENT_EXEC PROC_EVENT_EXIT)]) 100 200).
  - split; [reflexivity|]. split; reflexivity.
  - reflexivity.
Defined.

(** The run of the witness, followed by the exec event of the child. *)
Example fork_then_exec :
  let t := table_of [(ANY, Z.lor PROC_EVENT_EXEC PROC_EVENT_EXIT)] in
  let r := handleEvent LittleEndian
             (event_bytes LittleEndian PROC_EVENT_FORK [100; 100; 200; 200]) t in
  table r = table_of [(ANY, Z.lor PROC_EVENT_EXEC PROC_EVENT_EXIT);
                      (200, Z.lor PROC_EVENT_EXEC PROC_EVENT_EXIT)] ∧
  sent (effects r) = [] ∧
  sent (effects (handleEvent LittleEndian
                   (event_bytes LittleEndian PROC_EVENT_EXEC [200; 200]) (table r)))
  = [OnExec 200].
Proof. vm_compute. repeat split. Qed.

(** ** The dispatcher: which id *)

(** Fork, exec and exit events are filtered and reported by the
    thread-group id of the payload. *)
Example exec_uses_thread_group_id :
  let data := event_bytes LittleEndian PROC_EVENT_EXEC [5; 7] in
  sent (effects (handleEvent LittleEndian data (table_of [(7, PROC_EVENT_EXEC)]))) = [OnExec 7] ∧
  sent (effects (handleEvent LittleEndian data (table_of [(5, PROC_EVENT_EXEC)]))) = [].
Proof. vm_compute. split; reflexivity. Qed.

(** C3 fails on the code. A sid event of thread 5 in thread group 7:
    the subscription of process 7 to sid events is not consulted and
    nothing is sent; a subscription for 5 is, and the event sent carries
    5, the thread's pid. [case PROC_EVENT_SID] (and
    [case PROC_EVENT_UID, PROC_EVENT_GID]) read [event.ProcessPid] where
    the fork, exec and exit cases read the thread-group id. *)
Theorem sid_event_uses_thread_pid :
  let data := event_bytes LittleEndian PROC_EVENT_SID [5; 7] in
  let ev := struct_of (A := sidProcEvent) LittleEndian (event_payload LittleEndian data) in
  (sid_ProcessPid ev = 5 ∧ sid_ProcessTgid ev = 7) ∧
  sent (effects (handleEvent LittleEndian data (table_of [(7, PROC_EVENT_SID)]))) = [] ∧
  sent (effects (handleEvent LittleEndian data (table_of [(5, PROC_EVENT_SID)]))) = [OnSid 5].
Proof. vm_compute. repeat split. Qed.

(** ** The dispatcher: uid, gid and sid *)

(** C6 fails on the code. For a uid or gid event with a complete
    payload, [binary.Read] panics on the field [eId] of [idProcEvent],
    which is not exported: [handleEvent] does not return, the table is
    not consulted, no entry is removed and nothing is sent. *)
Theorem id_event_panics order (data : list Byte.byte) (t : gmap Z watch) :
  What (event_header order data) = PROC_EVENT_UID ∨
  What (event_header order data) = PROC_EVENT_GID →
  (dataSize (A := idProcEvent) ≤ length (event_payload order data))%nat →
  result (handleEvent order data t) = None ∧
  table (handleEvent order data t) = t ∧
  effects (handleEvent order data t) = [].
Proof.
  intros Hk Hlen.
  rewrite (handleEvent_UID_GID _ _ _ Hk), (case_UID_GID_full _ _ _ Hlen).
  repeat split.
Qed.

Lemma id_event_panics_witness :
  result (handleEvent LittleEndian
            (event_bytes LittleEndian PROC_EVENT_UID [100; 100; 1000; 0])
            (table_of [(100, PROC_EVENT_UID)])) = None.
Proof.
  apply (id_event_panics LittleEndian
           (event_bytes LittleEndian PROC_EVENT_UID [100; 100; 1000; 0])
           (table_of [(100, PROC_EVENT_UID)])).
  - left. reflexivity.
  - simpl. lia.
Defined.

(** The sid case does what the uid and gid case was meant to do: with
    the pid watched for sid, its entry is removed and the event sent. *)
Lemma sid_event_removes_entry order data t :
  What (event_header order data) = PROC_EVENT_SID →
  let pid := int_of_uint32 (sid_ProcessPid (struct_of order (event_payload order data))) in
  watching t pid PROC_EVENT_SID = true →
  let r := handleEvent order data t in
  result r = Some () ∧ table r = delete pid t ∧ sent (effects r) = [OnSid pid].
Proof.
  intros Hk pid Hw r. subst r.
  rewrite (handleEvent_SID _ _ _ Hk), case_SID_run. cbv zeta. fold pid. rewrite Hw.
  cbn [result table effects]. rewrite sent_app, sent_watching_trace. repeat split.
Qed.

(** ** The mutex *)

(** C9 fails on the code. When the parent of a fork event is watched
    for exec, the fork-follow branch reads [w.watches[ppid]] (and
    [w.watches[-1]]) after [isWatching] has released the mutex and
    before [Watch] takes it: the trace of [handleEvent] breaks the
    discipline. *)
Theorem fork_follow_reads_unlocked order (data : list Byte.byte) (t : gmap Z watch)
    (ppid pid : Z) :
  is_fork_event order data ppid pid →
  result (isWatching ppid PROC_EVENT_EXEC t) = Some true →
  disciplined false (effects (handleEvent order data t)) = false.
Proof.
  intros (Hk & Hppid & Hpid) Hw.
  rewrite isWatching_run in Hw. injection Hw as Hw.
  rewrite (handleEvent_FORK _ _ _ Hk).
  pose proof (case_FORK_run order (event_payload order data) t) as H.
  cbv zeta in H. rewrite H. clear H.
  rewrite Hppid, Hpid, Hw. cbn [effects].
  rewrite disciplined_watching_trace. reflexivity.
Qed.

Lemma fork_follow_reads_unlocked_witness :
  disciplined false
    (effects (handleEvent LittleEndian
                (event_bytes LittleEndian PROC_EVENT_FORK [100; 100; 200; 200])
                (table_of [(100, PROC_EVENT_EXEC)]))) = false.
Proof.
  apply (fork_follow_reads_unlocked LittleEndian
           (event_bytes LittleEndian PROC_EVENT_FORK [100; 100; 200; 200])
           (table_of [(100, PROC_EVENT_EXEC)]) 100 200).
  - split; [reflexivity|]. split; reflexivity.
  - reflexivity.
Defined.

(** The trace of the witness: the load of entry 100 between the two
    critical sections. *)
Example fork_follow_trace :
  effects (handleEvent LittleEndian
             (event_bytes LittleEndian PROC_EVENT_FORK [100; 100; 200; 200])
             (table_of [(100, PROC_EVENT_EXEC)]))
  = [Lock; MapLoad 100; Unlock;
     MapLoad 100;
     Lock; MapLoad 200; MapStore 200; Unlock;
     Lock; MapLoad 100; Unlock].
Proof. vm_compute. reflexivity. Qed.

(** The other paths keep the discipline: [isWatching] itself, and the
    exec and exit cases. *)
Lemma isWatching_disciplined pid kind t :
  disciplined false (effects (isWatching pid kind t)) = true.
Proof.
  rewrite isWatching_run. cbn [effects]. unfold watching_trace.
  destruct (t !! pid); reflexivity.
Qed.

Lemma exec_exit_disciplined order data t :
  What (event_header order data) = PROC_EVENT_EXEC ∨
  What (event_header order data) = PROC_EVENT_EXIT →
  disciplined false (effects (handleEvent order data t)) = true.
Proof.
  intros [Hk|Hk].
  - rewrite (handleEvent_EXEC _ _ _ Hk), case_EXEC_run. cbv zeta. cbn [effects].
    rewrite disciplined_watching_trace.
    split_if; reflexivity.
  - rewrite (handleEvent_EXIT _ _ _ Hk), case_EXIT_run. cbv zeta.
    split_if;
      cbn [effects]; rewrite disciplined_watching_trace; reflexivity.
Qed.

(** * Beyond the claims *)

(** ** Netlink messages on the wire *)

Lemma length_Write_NlMsghdr order h : length (Write_NlMsghdr order h) = NLMSG_HDRLEN.
Proof. unfold Write_NlMsghdr. rewrite !length_app, !length_put_uint. reflexivity. Qed.

Lemma length_Write_cnMsg order m : length (Write_cnMsg order m) = dataSize (A := cnMsg).
Proof. unfold Write_cnMsg. rewrite !length_app, !length_put_uint. reflexivity. Qed.

(** A header written by [binary.Write] is the header read in place. *)
Lemma header_at_Write order h rest :
  0 ≤ syscall.Len h < 2 ^ 32 →
  0 ≤ syscall.Type_ h < 2 ^ 16 → 0 ≤ syscall.Flags h < 2 ^ 16 →
  0 ≤ syscall.Seq h < 2 ^ 32 → 0 ≤ syscall.Pid h < 2 ^ 32 →
  syscall.header_at order (Write_NlMsghdr order h ++ rest) = h.
Proof.
  intros HL HT HF HS HP. destruct h as [len typ flg sq pd]. cbn in HL, HT, HF, HS, HP.
  unfold syscall.header_at, Write_NlMsghdr.
  cbn [syscall.Len syscall.Type_ syscall.Flags syscall.Seq syscall.Pid].
  rewrite <- !app_assoc. f_equal.
  - apply uint_at_here. exact HL.
  - rewrite (uint_at_skip order 2 4 0) by (symmetry; apply length_put_uint).
    apply uint_at_here. exact HT.
  - rewrite (uint_at_skip order 2 4 2) by (symmetry; apply length_put_uint).
    rewrite (uint_at_skip order 2 2 0) by (symmetry; apply length_put_uint).
    apply uint_at_here. exact HF.
  - rewrite (uint_at_skip order 4 4 4) by (symmetry; apply length_put_uint).
    rewrite (uint_at_skip order 4 2 2) by (symmetry; apply length_put_uint).
    rewrite (uint_at_skip order 4 2 0) by (symmetry; apply length_put_uint).
    apply uint_at_here. exact HS.
  - rewrite (uint_at_skip order 4 4 8) by (symmetry; apply length_put_uint).
    rewrite (uint_at_skip order 4 2 6) by (symmetry; apply length_put_uint).
    rewrite (uint_at_skip order 4 2 4) by (symmetry; apply length_put_uint).
    rewrite (uint_at_skip order 4 4 0) by (symmetry; apply length_put_uint).
    apply uint_at_here. exact HP.
Qed.

Lemma nlmAlignOf_aligned n : 0 ≤ n → n mod 4 = 0 → syscall.nlmAlignOf n = n.
Proof.
  intros Hn Hm. rewrite nlmAlignOf_spec.
  pose proof (Z.div_mod n 4 ltac:(lia)) as Hd. rewrite Hm in Hd.
  replace (n + 3) with (n / 4 * 4 + 3) by lia.
  rewrite Z.div_add_l by lia. change (3 / 4) with 0. lia.
Qed.

(** One round of the loop of [ParseNetlinkMessage] on a well-formed
    message followed by [rest]. *)
Lemma parse_loop_message order fuel m rest msgs :
  nlmsg_wf m →
  syscall.parse_loop (S fuel) order (nlmsg_bytes order m ++ rest) msgs =
  syscall.parse_loop fuel order rest (msgs ++ [m]).
Proof.
  intros (HLen & Hal & Hlt & HT & HF & HS & HP).
  destruct m as [h data]. cbn [syscall.Header syscall.Data] in *.
  assert (HL : 0 ≤ syscall.Len h < 2 ^ 32) by lia.
  unfold nlmsg_bytes. cbn [syscall.Header syscall.Data syscall.parse_loop].
  rewrite <- app_assoc.
  rewrite (header_at_Write order h (data ++ rest) HL HT HF HS HP).
  assert (Hlenb : length (Write_NlMsghdr order h ++ data ++ rest)
                  = (NLMSG_HDRLEN + length data + length rest)%nat).
  { rewrite !length_app, length_Write_NlMsghdr. lia. }
  rewrite Hlenb.
  destruct (Nat.leb_spec NLMSG_HDRLEN (NLMSG_HDRLEN + length data + length rest))
    as [_|?]; [|lia].
  assert (Hal' : syscall.nlmAlignOf (syscall.Len h) = syscall.Len h).
  { apply nlmAlignOf_aligned; [lia|]. rewrite HLen. unfold NLMSG_HDRLEN.
    rewrite Nat2Z.inj_add.
    assert (Z.of_nat (length data) mod 4 = 0).
    { change 4 with (Z.of_nat 4). rewrite <- Nat2Z.inj_mod. rewrite Hal. reflexivity. }
    rewrite Z.add_mod by lia. rewrite H. reflexivity. }
  rewrite Hal'.
  destruct (Z.ltb_spec (syscall.Len h) (Z.of_nat NLMSG_HDRLEN)) as [?|_]; [lia|].
  destruct (Z.ltb_spec (Z.of_nat (NLMSG_HDRLEN + length data + length rest)) (syscall.Len h))
    as [?|_]; [lia|].
  cbn [orb]. f_equal.
  - rewrite HLen, Nat2Z.id.
    rewrite app_assoc, drop_app_length'; [reflexivity|].
    rewrite length_app, length_Write_NlMsghdr. reflexivity.
  - f_equal. f_equal. f_equal.
    rewrite drop_app_length' by (symmetry; apply length_Write_NlMsghdr).
    rewrite HLen, Nat2Z.id.
    apply take_app_length'. lia.
Qed.

Lemma length_nlmsg_bytes order m :
  length (nlmsg_bytes order m) = (16 + length (syscall.Data m))%nat.
Proof. unfold nlmsg_bytes. rewrite length_app, length_Write_NlMsghdr. reflexivity. Qed.

(** [ParseNetlinkMessage] gives back the messages a datagram was made
    of. *)
Lemma parse_loop_messages order (ms : list syscall.NetlinkMessage) : ∀ fuel msgs,
  Forall nlmsg_wf ms →
  (length (concat (map (nlmsg_bytes order) ms)) ≤ fuel)%nat →
  syscall.parse_loop fuel order (concat (map (nlmsg_bytes order) ms)) msgs
  = Some (msgs ++ ms).
Proof.
  induction ms as [|m ms IH]; intros fuel msgs Hwf Hfuel.
  - cbn [map concat]. rewrite app_nil_r. destruct fuel; reflexivity.
  - apply Forall_cons in Hwf as [Hm Hms]. cbn [map concat] in *.
    destruct fuel as [|fuel].
    { exfalso. rewrite length_app, length_nlmsg_bytes in Hfuel. lia. }
    rewrite (parse_loop_message order fuel m _ msgs Hm).
    rewrite IH; [rewrite <- app_assoc; reflexivity|exact Hms|].
    rewrite length_app, length_nlmsg_bytes in Hfuel. lia.
Qed.

Lemma ParseNetlinkMessage_messages order (ms : list syscall.NetlinkMessage) :
  Forall nlmsg_wf ms →
  syscall.ParseNetlinkMessage order (concat (map (nlmsg_bytes order) ms)) = Some ms.
Proof.
  intros Hwf. unfold syscall.ParseNetlinkMessage.
  rewrite (parse_loop_messages order ms _ [] Hwf); [reflexivity|lia].
Qed.

(** ** The read loop, datagram by datagram *)

Lemma run_bind_inv {A B} (m : M A) (f : A → M B) t b :
  result ((m ≫= f) t) = Some b →
  ∃ a, result (m t) = Some a ∧
       result (f a (table (m t))) = Some b ∧
       table ((m ≫= f) t) = table (f a (table (m t))) ∧
       effects ((m ≫= f) t) = effects (m t) ++ effects (f a (table (m t))).
Proof.
  unfold mbind, M_bind. destruct (result (m t)) as [a|]; cbn [result table effects].
  - intros H. exists a. repeat split. exact H.
  - discriminate.
Qed.

Lemma errors_of_app l1 l2 : errors_of (l1 ++ l2) = errors_of l1 ++ errors_of l2.
Proof. apply omap_app. Qed.

Lemma errors_of_none l :
  forallb (λ m, negb (is_error m)) l = true → errors_of l = [].
Proof.
  induction l as [|m l IH]; [reflexivity|]. cbn [forallb]. intros H.
  apply andb_true_iff in H as [Hm Hl]. unfold errors_of in *. cbn [omap].
  destruct m; try discriminate; cbn; apply IH; exact Hl.
Qed.

Lemma dispatch_no_error order m t :
  errors_of (sent (effects (dispatch order m t))) = [].
Proof.
  unfold dispatch. destruct (_ =? _); [|reflexivity].
  apply errors_of_none, handleEvent_sends_no_error.
Qed.

Lemma for_range_no_error order msgs : ∀ t,
  errors_of (sent (effects (for_range msgs (dispatch order) t))) = [].
Proof.
  induction msgs as [|m msgs IH]; intros t; [reflexivity|].
  cbn [for_range]. unfold mbind at 1, M_bind at 1.
  destruct (result (dispatch order m t)); cbn [effects].
  - rewrite sent_app, errors_of_app, dispatch_no_error, IH. reflexivity.
  - apply dispatch_no_error.
Qed.

(** The loop on a datagram long enough for a header. *)
Lemma readEvents_datagram order datagram rest t :
  (NLMSG_HDRLEN ≤ length datagram)%nat →
  readEvents order (RecvOk datagram :: rest) t =
  (for_range (default [] (syscall.ParseNetlinkMessage order datagram)) (dispatch order) ;;
   readEvents order rest) t.
Proof.
  intros Hlen. cbn [readEvents].
  destruct (Nat.ltb_spec (length datagram) NLMSG_HDRLEN) as [?|_]; [lia|]. reflexivity.
Qed.

Lemma readEvents_messages order ms rest t :
  ms ≠ [] → Forall nlmsg_wf ms →
  readEvents order (RecvOk (concat (map (nlmsg_bytes order) ms)) :: rest) t =
  (for_range ms (dispatch order) ;; readEvents order rest) t.
Proof.
  intros Hne Hwf. rewrite readEvents_datagram.
  - rewrite (ParseNetlinkMessage_messages order ms Hwf). reflexivity.
  - destruct ms as [|m ms]; [congruence|]. cbn [map concat].
    rewrite length_app, length_nlmsg_bytes. unfold NLMSG_HDRLEN. lia.
Qed.

(** X1. A datagram made of well-formed netlink messages (each header
    announcing its length, each payload ending on a 4-byte boundary) is
    taken apart into exactly these messages, and [readEvents] goes
    through them in order: a message of type [NLMSG_DONE] is handed to
    [handleEvent] with its payload, a message of any other type is
    skipped; then the loop goes on with the next receive. *)
Theorem readEvents_dispatches_messages order (ms : list syscall.NetlinkMessage)
    (rest : list Recvfrom) (t : gmap Z watch) :
  ms ≠ [] → Forall nlmsg_wf ms →
  syscall.ParseNetlinkMessage order (concat (map (nlmsg_bytes order) ms)) = Some ms ∧
  readEvents order (RecvOk (concat (map (nlmsg_bytes order) ms)) :: rest) t =
  (for_range ms (λ m, if syscall.Type_ (syscall.Header m) =? NLMSG_DONE
                      then handleEvent order (syscall.Data m)
                      else mret ()) ;;
   readEvents order rest) t.
Proof.
  intros Hne Hwf. split.
  - apply ParseNetlinkMessage_messages. exact Hwf.
  - apply readEvents_messages; assumption.
Qed.

(** [datagram_of] is the one-message case. *)
Lemma datagram_of_nlmsg order data :
  datagram_of order data =
  nlmsg_bytes order
    {| syscall.Header := {| syscall.Len := Z.of_nat (NLMSG_HDRLEN + length data);
                            syscall.Type_ := NLMSG_DONE; syscall.Flags := 0;
                            syscall.Seq := 0; syscall.Pid := 0 |};
       syscall.Data := data |}.
Proof.
  unfold datagram_of, nlmsg_bytes, Write_NlMsghdr.
  cbn [syscall.Header syscall.Data syscall.Len syscall.Type_ syscall.Flags
       syscall.Seq syscall.Pid].
  rewrite <- !app_assoc. reflexivity.
Qed.

Lemma readEvents_datagram_of order data rest t :
  (length data mod 4 = 0)%nat → Z.of_nat (NLMSG_HDRLEN + length data) < 2 ^ 32 →
  readEvents order (RecvOk (datagram_of order data) :: rest) t =
  (handleEvent order data ;; readEvents order rest) t.
Proof.
  intros Hal Hlt. rewrite datagram_of_nlmsg.
  set (m := {| syscall.Header := _; syscall.Data := data |}).
  assert (Hwf : nlmsg_wf m).
  { unfold nlmsg_wf, m.
    cbn [syscall.Header syscall.Data syscall.Len syscall.Type_ syscall.Flags
         syscall.Seq syscall.Pid].
    split; [reflexivity|]. split; [exact Hal|]. split; [exact Hlt|].
    unfold NLMSG_DONE. lia. }
  pose proof (readEvents_messages order [m] rest t ltac:(discriminate)
                (Forall_cons_2 _ _ _ Hwf (Forall_nil_2 _))) as H.
  cbn [map concat] in H. rewrite app_nil_r in H. rewrite H.
  cbn [for_range]. apply run_bind_ext. unfold dispatch, m.
  cbn [syscall.Header syscall.Data syscall.Type_]. rewrite Z.eqb_refl.
  apply run_bind_ret.
Qed.

Lemma readEvents_dispatches_messages_witness :
  readEvents LittleEndian
    [RecvOk (concat (map (nlmsg_bytes LittleEndian)
                       [nlmsg 2 [Byte.x00; Byte.x00; Byte.x00; Byte.x00];
                        nlmsg NLMSG_DONE (event_bytes LittleEndian PROC_EVENT_EXEC [7; 7])]))]
    (table_of [(7, PROC_EVENT_EXEC)])
  = (for_range [nlmsg 2 [Byte.x00; Byte.x00; Byte.x00; Byte.x00];
                nlmsg NLMSG_DONE (event_bytes LittleEndian PROC_EVENT_EXEC [7; 7])]
       (λ m, if syscall.Type_ (syscall.Header m) =? NLMSG_DONE
             then handleEvent LittleEndian (syscall.Data m)
             else mret ()) ;;
     readEvents LittleEndian []) (table_of [(7, PROC_EVENT_EXEC)]).
Proof.
  apply (readEvents_dispatches_messages LittleEndian
           [nlmsg 2 [Byte.x00; Byte.x00; Byte.x00; Byte.x00];
            nlmsg NLMSG_DONE (event_bytes LittleEndian PROC_EVENT_EXEC [7; 7])]).
  - discriminate.
  - repeat apply Forall_cons_2; [| |apply Forall_nil_2];
      unfold nlmsg_wf; vm_compute; intuition discriminate.
Defined.

(** The run of the witness: the message of type 2 is skipped, the exec
    event is sent. *)
Example skipped_then_dispatched :
  sent (effects (readEvents LittleEndian
    [RecvOk (concat (map (nlmsg_bytes LittleEndian)
                       [nlmsg 2 [Byte.x00; Byte.x00; Byte.x00; Byte.x00];
                        nlmsg NLMSG_DONE (event_bytes LittleEndian PROC_EVENT_EXEC [7; 7])]))]
    (table_of [(7, PROC_EVENT_EXEC)])))
  = [OnExec 7].
Proof. vm_compute. reflexivity. Qed.

(** A message whose header announces less than a header, or more than
    what is left of the datagram. *)
Lemma parse_loop_bad order fuel bad msgs :
  (NLMSG_HDRLEN ≤ length bad)%nat →
  syscall.Len (syscall.header_at order bad) < Z.of_nat NLMSG_HDRLEN ∨
  Z.of_nat (length bad) < syscall.nlmAlignOf (syscall.Len (syscall.header_at order bad)) →
  syscall.parse_loop (S fuel) order bad msgs = None.
Proof.
  intros Hlen Hbad. cbn [syscall.parse_loop].
  destruct (Nat.leb_spec NLMSG_HDRLEN (length bad)) as [_|?]; [|lia].
  destruct Hbad as [H|H].
  - destruct (Z.ltb_spec (syscall.Len (syscall.header_at order bad)) (Z.of_nat NLMSG_HDRLEN));
      [reflexivity|lia].
  - rewrite orb_comm.
    destruct (Z.ltb_spec (Z.of_nat (length bad))
                (syscall.nlmAlignOf (syscall.Len (syscall.header_at order bad))));
      [reflexivity|lia].
Qed.

Lemma parse_loop_messages_bad order bad (ms : list syscall.NetlinkMessage) : ∀ fuel msgs,
  Forall nlmsg_wf ms →
  (length (concat (map (nlmsg_bytes order) ms) ++ bad) ≤ fuel)%nat →
  (NLMSG_HDRLEN ≤ length bad)%nat →
  syscall.Len (syscall.header_at order bad) < Z.of_nat NLMSG_HDRLEN ∨
  Z.of_nat (length bad) < syscall.nlmAlignOf (syscall.Len (syscall.header_at order bad)) →
  syscall.parse_loop fuel order (concat (map (nlmsg_bytes order) ms) ++ bad) msgs = None.
Proof.
  induction ms as [|m ms IH]; intros fuel msgs Hwf Hfuel Hlen Hbad.
  - cbn [map concat app] in *. destruct fuel as [|fuel].
    + unfold NLMSG_HDRLEN in Hlen. lia.
    + apply parse_loop_bad; assumption.
  - apply Forall_cons in Hwf as [Hm Hms]. cbn [map concat] in *.
    rewrite <- app_assoc in *. rewrite length_app, length_nlmsg_bytes in Hfuel.
    destruct fuel as [|fuel]; [lia|].
    rewrite (parse_loop_message order fuel m _ msgs Hm).
    apply IH; [exact Hms|lia|exact Hlen|exact Hbad].
Qed.

(** X2. One malformed message spoils its datagram. When well-formed
    messages are followed in the same datagram by a message whose header
    announces less than a header or more than the bytes that are left (a
    truncated message), [ParseNetlinkMessage] fails and [readEvents]
    drops the error: none of the messages is handed to [handleEvent],
    the well-formed ones included, nothing is sent, not even on the
    error channel, and the loop goes on with the next receive. *)
Theorem readEvents_drops_spoiled_datagram order (ms : list syscall.NetlinkMessage)
    (bad : list Byte.byte) (rest : list Recvfrom) (t : gmap Z watch) :
  Forall nlmsg_wf ms →
  (NLMSG_HDRLEN ≤ length bad)%nat →
  syscall.Len (syscall.header_at order bad) < Z.of_nat NLMSG_HDRLEN ∨
  Z.of_nat (length bad) < syscall.nlmAlignOf (syscall.Len (syscall.header_at order bad)) →
  syscall.ParseNetlinkMessage order (concat (map (nlmsg_bytes order) ms) ++ bad) = None ∧
  readEvents order (RecvOk (concat (map (nlmsg_bytes order) ms) ++ bad) :: rest) t
  = readEvents order rest t.
Proof.
  intros Hwf Hlen Hbad.
  assert (Hparse : syscall.ParseNetlinkMessage order
                     (concat (map (nlmsg_bytes order) ms) ++ bad) = None).
  { unfold syscall.ParseNetlinkMessage.
    apply parse_loop_messages_bad; [exact Hwf|lia|exact Hlen|exact Hbad]. }
  split; [exact Hparse|].
  rewrite readEvents_datagram by (rewrite length_app; lia).
  rewrite Hparse. cbn [default from_option for_range].
  exact (run_ret_bind () (λ _, readEvents order rest) t).
Qed.

Lemma readEvents_drops_spoiled_datagram_witness :
  readEvents LittleEndian
    [RecvOk (concat (map (nlmsg_bytes LittleEndian)
                       [nlmsg NLMSG_DONE (event_bytes LittleEndian PROC_EVENT_EXEC [7; 7])])
             ++ take 20 (nlmsg_bytes LittleEndian
                           (nlmsg NLMSG_DONE (event_bytes LittleEndian PROC_EVENT_EXEC [8; 8]))))]
    (table_of [(7, PROC_EVENT_EXEC)])
  = readEvents LittleEndian [] (table_of [(7, PROC_EVENT_EXEC)]).
Proof.
  apply (readEvents_drops_spoiled_datagram LittleEndian
           [nlmsg NLMSG_DONE (event_bytes LittleEndian PROC_EVENT_EXEC [7; 7])]).
  - apply Forall_cons_2; [|apply Forall_nil_2].
    unfold nlmsg_wf; vm_compute; intuition discriminate.
  - vm_compute. lia.
  - right. vm_compute. reflexivity.
Defined.

Lemma omap_recv_error_cons r recvs :
  omap recv_error (r :: recvs) =
  match recv_error r with
  | Some err => err :: omap recv_error recvs
  | None => omap recv_error recvs
  end.
Proof. reflexivity. Qed.

(** X3. The error channel counts the bad receives. When [readEvents]
    runs to the end of its receives, the errors it has sent are, in
    order, the error of each failed [Recvfrom] and one [EINVAL] for each
    datagram shorter than a netlink header; nothing else ever goes to the
    error channel. *)
Theorem readEvents_errors order (recvs : list Recvfrom) (t : gmap Z watch) :
  result (readEvents order recvs t) = Some () →
  errors_of (sent (effects (readEvents order recvs t))) = omap recv_error recvs.
Proof.
  revert t. induction recvs as [|r recvs IH]; intros t Hres; [reflexivity|].
  rewrite omap_recv_error_cons.
  destruct r as [err|datagram]; cbn [recv_error].
  - cbn [readEvents] in *.
    rewrite (run_bind (send (OnError err)) _ t () t [ChanSend (OnError err)] eq_refl) in *.
    cbn [result effects] in *. rewrite sent_app, errors_of_app.
    change (errors_of (sent [ChanSend (OnError err)])) with [err].
    cbn [app]. f_equal. apply IH. exact Hres.
  - destruct (Nat.ltb_spec (length datagram) NLMSG_HDRLEN) as [Hs|Hl].
    + cbn [readEvents] in *.
      destruct (Nat.ltb_spec (length datagram) NLMSG_HDRLEN) as [_|?]; [|lia].
      rewrite (run_bind (send (OnError EINVAL)) _ t () t [ChanSend (OnError EINVAL)] eq_refl) in *.
      cbn [result effects] in *. rewrite sent_app, errors_of_app.
      change (errors_of (sent [ChanSend (OnError EINVAL)])) with [EINVAL].
      cbn [app]. f_equal. apply IH. exact Hres.
    + rewrite readEvents_datagram in * by exact Hl.
      apply run_bind_inv in Hres as ([] & _ & Hrest & _ & ->).
      rewrite sent_app, errors_of_app, for_range_no_error.
      apply IH. exact Hrest.
Qed.

Lemma readEvents_errors_witness :
  errors_of (sent (effects (readEvents LittleEndian
    [RecvErr (Errno 4); RecvOk [Byte.x01];
     RecvOk (datagram_of LittleEndian (event_bytes LittleEndian PROC_EVENT_EXEC [7; 7]))]
    (table_of [(7, PROC_EVENT_EXEC)]))))
  = omap recv_error
      [RecvErr (Errno 4); RecvOk [Byte.x01];
       RecvOk (datagram_of LittleEndian (event_bytes LittleEndian PROC_EVENT_EXEC [7; 7]))].
Proof.
  apply (readEvents_errors LittleEndian). vm_compute. reflexivity.
Defined.

(** ** The dispatcher, message by message *)

Lemma watching_no_entry t pid kind : matching_entry t pid = None → watching t pid kind = false.
Proof. intros H. unfold watching. rewrite H. reflexivity. Qed.

Lemma handleEvent_unsubscribed order data t :
  matching_entry t (subject_pid order data) = None →
  table (handleEvent order data t) = t ∧ sent (effects (handleEvent order data t)) = [].
Proof.
  unfold subject_pid. rewrite handleEvent_run. cbv zeta.
  destruct (What (event_header order data) =? PROC_EVENT_FORK).
  { intros H. pose proof (case_FORK_run order (event_payload order data) t) as E.
    cbv zeta in E. rewrite E. clear E.
    rewrite (watching_no_entry _ _ _ H). cbn [table effects app].
    rewrite (watching_no_entry _ _ _ H).
    rewrite !sent_app, !sent_watching_trace. split; reflexivity. }
  destruct (What (event_header order data) =? PROC_EVENT_EXEC).
  { intros H. rewrite case_EXEC_run. cbv zeta. rewrite (watching_no_entry _ _ _ H).
    cbn [table effects]. rewrite sent_app, sent_watching_trace. split; reflexivity. }
  destruct (What (event_header order data) =? PROC_EVENT_EXIT).
  { intros H. rewrite case_EXIT_run. cbv zeta. rewrite (watching_no_entry _ _ _ H).
    cbn [table effects]. rewrite sent_app, sent_watching_trace. split; reflexivity. }
  destruct ((What (event_header order data) =? PROC_EVENT_UID)
            || (What (event_header order data) =? PROC_EVENT_GID)).
  { change (dataSize (A := idProcEvent)) with 16%nat.
    destruct (Nat.leb_spec 16 (length (event_payload order data))) as [Hl|Hl]; intros H.
    - rewrite (case_UID_GID_full _ _ _ Hl). split; reflexivity.
    - rewrite (case_UID_GID_short _ _ _ Hl). change (int_of_uint32 0) with 0 in H.
      rewrite (watching_no_entry _ _ _ H).
      cbn [table effects]. rewrite sent_app, sent_watching_trace. split; reflexivity. }
  destruct (What (event_header order data) =? PROC_EVENT_SID).
  { intros H. rewrite case_SID_run. cbv zeta. rewrite (watching_no_entry _ _ _ H).
    cbn [table effects]. rewrite sent_app, sent_watching_trace. split; reflexivity. }
  intros _. split; reflexivity.
Qed.

(** X4. Filtering is local and complete: when the process a message is
    about has no entry in the watch table and there is no wildcard entry
    either, [handleEvent] sends nothing on any channel and leaves the
    table as it was, whatever the kind and the bytes of the message. *)
Theorem handleEvent_ignores_unsubscribed order (data : list Byte.byte) (t : gmap Z watch) :
  t !! subject_pid order data = None → t !! ANY = None →
  table (handleEvent order data t) = t ∧ sent (effects (handleEvent order data t)) = [].
Proof.
  intros Hp Ha. apply handleEvent_unsubscribed. unfold matching_entry. rewrite Hp. exact Ha.
Qed.

Lemma handleEvent_ignores_unsubscribed_witness :
  table (handleEvent LittleEndian (event_bytes LittleEndian PROC_EVENT_EXIT [9; 9; 0; 0])
           (table_of [(7, PROC_EVENT_ALL)])) = table_of [(7, PROC_EVENT_ALL)] ∧
  sent (effects (handleEvent LittleEndian (event_bytes LittleEndian PROC_EVENT_EXIT [9; 9; 0; 0])
                   (table_of [(7, PROC_EVENT_ALL)]))) = [].
Proof.
  apply (handleEvent_ignores_unsubscribed LittleEndian
           (event_bytes LittleEndian PROC_EVENT_EXIT [9; 9; 0; 0])
           (table_of [(7, PROC_EVENT_ALL)])); reflexivity.
Defined.

(** X5. One message, at most one event, on the channel of its kind:
    whatever the bytes and the table, [handleEvent] sends nothing, or
    exactly one event, and then it is the fork event of the parent and
    child thread-group ids for a fork message, the exec or exit event of
    the thread-group id for an exec or exit message, the event of
    [ProcessPid] on the sid channel for a sid message; on the uid
    channel the only event it can ever send is the one for pid 0. *)
Theorem handleEvent_sends_at_most_one order (data : list Byte.byte) (t : gmap Z watch) :
  let hdr := event_header order data in
  let buf := event_payload order data in
  let ms := sent (effects (handleEvent order data t)) in
  ms = [] ∨
  (What hdr = PROC_EVENT_FORK ∧
   ms = [OnFork (int_of_uint32 (ParentTgid (struct_of order buf)))
                (int_of_uint32 (ChildTgid (struct_of order buf)))]) ∨
  (What hdr = PROC_EVENT_EXEC ∧
   ms = [OnExec (int_of_uint32 (exec_ProcessTgid (struct_of order buf)))]) ∨
  (What hdr = PROC_EVENT_EXIT ∧
   ms = [OnExit (int_of_uint32 (exit_ProcessTgid (struct_of order buf)))]) ∨
  ((What hdr = PROC_EVENT_UID ∨ What hdr = PROC_EVENT_GID) ∧ ms = [OnUid 0]) ∨
  (What hdr = PROC_EVENT_SID ∧
   ms = [OnSid (int_of_uint32 (sid_ProcessPid (struct_of order buf)))]).
Proof.
  cbv zeta. rewrite handleEvent_run. cbv zeta.
  destruct (Z.eqb_spec (What (event_header order data)) PROC_EVENT_FORK) as [E|_].
  { destruct (case_FORK_sent order (event_payload order data) t) as [[] ->]; auto. }
  destruct (Z.eqb_spec (What (event_header order data)) PROC_EVENT_EXEC) as [E|_].
  { rewrite case_EXEC_run. cbv zeta. cbn [effects]. rewrite sent_app, sent_watching_trace.
    split_if; cbn [app sent]; auto. }
  destruct (Z.eqb_spec (What (event_header order data)) PROC_EVENT_EXIT) as [E|_].
  { rewrite case_EXIT_run. cbv zeta.
    split_if; cbn [effects]; rewrite sent_app, sent_watching_trace; cbn [app sent]; auto 6. }
  destruct (Z.eqb_spec (What (event_header order data)) PROC_EVENT_UID) as [E|_].
  { cbn [orb]. destruct (le_lt_dec 16 (length (event_payload order data))) as [Hl|Hl].
    - rewrite (case_UID_GID_full _ _ _ Hl). auto.
    - rewrite (case_UID_GID_short _ _ _ Hl).
      split_if; cbn [effects]; rewrite sent_app, sent_watching_trace; cbn [app sent]; auto 8. }
  destruct (Z.eqb_spec (What (event_header order data)) PROC_EVENT_GID) as [E|_].
  { cbn [orb]. destruct (le_lt_dec 16 (length (event_payload order data))) as [Hl|Hl].
    - rewrite (case_UID_GID_full _ _ _ Hl). auto.
    - rewrite (case_UID_GID_short _ _ _ Hl).
      split_if; cbn [effects]; rewrite sent_app, sent_watching_trace; cbn [app sent]; auto 8. }
  cbn [orb].
  destruct (Z.eqb_spec (What (event_header order data)) PROC_EVENT_SID) as [E|_].
  { rewrite case_SID_run. cbv zeta.
    split_if; cbn [effects]; rewrite sent_app, sent_watching_trace; cbn [app sent]; auto 10. }
  left. reflexivity.
Qed.

(** Bytes after a structure do not change what [binary.Read] makes of
    it. *)
Lemma binary_Read_more {A} `{BinaryData A} order buf extra :
  (dataSize ≤ length buf)%nat →
  binary_Read (A := A) (buf ++ extra) order =
  ((binary_Read (A := A) buf order).1, (binary_Read (A := A) buf order).2 ++ extra).
Proof.
  intros Hlen. unfold binary_Read.
  destruct (Nat.leb_spec dataSize (length buf)) as [_|?]; [|lia].
  destruct (Nat.leb_spec dataSize (length (buf ++ extra))) as [_|Hlt];
    [|rewrite length_app in Hlt; lia].
  cbn [fst snd]. rewrite take_app_le, drop_app_le by exact Hlen. reflexivity.
Qed.

Lemma struct_of_more {A} `{BinaryData A} order buf extra :
  (dataSize ≤ length buf)%nat → struct_of (A := A) order (buf ++ extra) = struct_of order buf.
Proof. intros Hlen. unfold struct_of. rewrite binary_Read_more by exact Hlen. reflexivity. Qed.

Lemma rest_of_more A `{BinaryData A} order buf extra :
  (dataSize ≤ length buf)%nat → rest_of A order (buf ++ extra) = rest_of A order buf ++ extra.
Proof. intros Hlen. unfold rest_of. rewrite binary_Read_more by exact Hlen. reflexivity. Qed.

Lemma handleEvent_more order data extra t :
  (dataSize (A := cnMsg) + dataSize (A := procEventHeader) + 16 ≤ length data)%nat →
  handleEvent order (data ++ extra) t = handleEvent order data t.
Proof.
  change (dataSize (A := cnMsg)) with 20%nat.
  change (dataSize (A := procEventHeader)) with 16%nat. intros Hlen.
  assert (H1 : rest_of cnMsg order (data ++ extra) = rest_of cnMsg order data ++ extra).
  { apply rest_of_more. change (dataSize (A := cnMsg)) with 20%nat. lia. }
  assert (L1 : length (rest_of cnMsg order data) = (length data - 20)%nat)
    by apply rest_of_length.
  assert (Hh : event_header order (data ++ extra) = event_header order data).
  { unfold event_header. rewrite H1. apply struct_of_more.
    change (dataSize (A := procEventHeader)) with 16%nat. lia. }
  assert (Hp : event_payload order (data ++ extra) = event_payload order data ++ extra).
  { unfold event_payload. rewrite H1. apply rest_of_more.
    change (dataSize (A := procEventHeader)) with 16%nat. lia. }
  assert (L2 : (16 ≤ length (event_payload order data))%nat).
  { unfold event_payload. rewrite rest_of_length, L1.
    change (dataSize (A := procEventHeader)) with 16%nat. lia. }
  rewrite !handleEvent_run. cbv zeta. rewrite Hh, Hp.
  set (buf := event_payload order data) in *.
  destruct (What (event_header order data) =? PROC_EVENT_FORK).
  { pose proof (case_FORK_run order (buf ++ extra) t) as E1.
    pose proof (case_FORK_run order buf t) as E2. cbv zeta in E1, E2.
    rewrite E1, E2, (struct_of_more (A := forkProcEvent)) by exact L2. reflexivity. }
  destruct (What (event_header order data) =? PROC_EVENT_EXEC).
  { rewrite !case_EXEC_run. cbv zeta.
    rewrite (struct_of_more (A := execProcEvent))
      by (change (dataSize (A := execProcEvent)) with 8%nat; lia).
    reflexivity. }
  destruct (What (event_header order data) =? PROC_EVENT_EXIT).
  { rewrite !case_EXIT_run. cbv zeta.
    rewrite (struct_of_more (A := exitProcEvent)) by exact L2. reflexivity. }
  destruct ((What (event_header order data) =? PROC_EVENT_UID)
            || (What (event_header order data) =? PROC_EVENT_GID)).
  { rewrite !case_UID_GID_full; [reflexivity|exact L2|rewrite length_app; lia]. }
  destruct (What (event_header order data) =? PROC_EVENT_SID).
  { rewrite !case_SID_run. cbv zeta.
    rewrite (struct_of_more (A := sidProcEvent))
      by (change (dataSize (A := sidProcEvent)) with 8%nat; lia).
    reflexivity. }
  reflexivity.
Qed.

(** X6. [handleEvent] reads a prefix of the message only: the
    connector header (20 bytes), the event header (16 bytes) and at most
    16 bytes of payload. Bytes that follow them, such as the rest of the
    kernel's fixed-size event union, change nothing: the result, the
    table and the events sent are the same with and without them. *)
Theorem handleEvent_ignores_trailing_bytes order (data extra : list Byte.byte)
    (t : gmap Z watch) :
  (20 + 16 + 16 ≤ length data)%nat →
  handleEvent order (data ++ extra) t = handleEvent order data t.
Proof. intros Hlen. apply handleEvent_more. exact Hlen. Qed.

Lemma handleEvent_ignores_trailing_bytes_witness :
  handleEvent LittleEndian
    (event_bytes LittleEndian PROC_EVENT_EXIT [7; 7; 0; 17] ++ [Byte.xff; Byte.xff])
    (table_of [(7, PROC_EVENT_EXIT)])
  = handleEvent LittleEndian (event_bytes LittleEndian PROC_EVENT_EXIT [7; 7; 0; 17])
      (table_of [(7, PROC_EVENT_EXIT)]).
Proof.
  apply (handleEvent_ignores_trailing_bytes LittleEndian
           (event_bytes LittleEndian PROC_EVENT_EXIT [7; 7; 0; 17])).
  vm_compute. lia.
Defined.

(** When the table is left alone. *)
Lemma handleEvent_table_kept order data t :
  let hdr := event_header order data in
  let buf := event_payload order data in
  (What hdr = PROC_EVENT_FORK →
   watching t (int_of_uint32 (ParentTgid (struct_of order buf))) PROC_EVENT_EXEC = false) →
  (What hdr = PROC_EVENT_EXIT →
   watching t (int_of_uint32 (exit_ProcessTgid (struct_of order buf))) PROC_EVENT_EXIT = false) →
  (What hdr = PROC_EVENT_UID ∨ What hdr = PROC_EVENT_GID →
   (16 ≤ length buf)%nat ∨ watching t 0 PROC_EVENT_UID = false) →
  (What hdr = PROC_EVENT_SID →
   watching t (int_of_uint32 (sid_ProcessPid (struct_of order buf))) PROC_EVENT_SID = false) →
  table (handleEvent order data t) = t.
Proof.
  cbv zeta. intros Hfork Hexit Hid Hsid. rewrite handleEvent_run. cbv zeta.
  destruct (Z.eqb_spec (What (event_header order data)) PROC_EVENT_FORK) as [E|_].
  { pose proof (case_FORK_run order (event_payload order data) t) as E1.
    cbv zeta in E1. rewrite E1, (Hfork E). reflexivity. }
  destruct (Z.eqb_spec (What (event_header order data)) PROC_EVENT_EXEC) as [E|_].
  { rewrite case_EXEC_run. reflexivity. }
  destruct (Z.eqb_spec (What (event_header order data)) PROC_EVENT_EXIT) as [E|_].
  { rewrite case_EXIT_run. cbv zeta. rewrite (Hexit E). reflexivity. }
  destruct (Z.eqb_spec (What (event_header order data)) PROC_EVENT_UID) as [E|_].
  { cbn [orb]. destruct (le_lt_dec 16 (length (event_payload order data))) as [Hl|Hl].
    - rewrite (case_UID_GID_full _ _ _ Hl). reflexivity.
    - rewrite (case_UID_GID_short _ _ _ Hl).
      destruct (Hid (or_introl E)) as [?| ->]; [lia|reflexivity]. }
  destruct (Z.eqb_spec (What (event_header order data)) PROC_EVENT_GID) as [E|_].
  { cbn [orb]. destruct (le_lt_dec 16 (length (event_payload order data))) as [Hl|Hl].
    - rewrite (case_UID_GID_full _ _ _ Hl). reflexivity.
    - rewrite (case_UID_GID_short _ _ _ Hl).
      destruct (Hid (or_intror E)) as [?| ->]; [lia|reflexivity]. }
  cbn [orb].
  destruct (Z.eqb_spec (What (event_header order data)) PROC_EVENT_SID) as [E|_].
  { rewrite case_SID_run. cbv zeta. rewrite (Hsid E). reflexivity. }
  reflexivity.
Qed.

(** X7. The table changes only for a watched process. [handleEvent]
    leaves the watch table exactly as it was unless the message is a
    fork whose parent is watched for exec, an exit whose process is
    watched for exit, a sid event whose process is watched for sid, or a
    uid or gid event while pid 0 is watched for uid. In particular exec
    messages and messages of other kinds never change it, and the entry
    of a process that is not watched for exit stays when the process
    exits. *)
Theorem handleEvent_keeps_table order (data : list Byte.byte) (t : gmap Z watch) :
  let hdr := event_header order data in
  let buf := event_payload order data in
  (What hdr = PROC_EVENT_FORK →
   result (isWatching (int_of_uint32 (ParentTgid (struct_of order buf))) PROC_EVENT_EXEC t)
   = Some false) →
  (What hdr = PROC_EVENT_EXIT →
   result (isWatching (int_of_uint32 (exit_ProcessTgid (struct_of order buf))) PROC_EVENT_EXIT t)
   = Some false) →
  (What hdr = PROC_EVENT_UID ∨ What hdr = PROC_EVENT_GID →
   result (isWatching 0 PROC_EVENT_UID t) = Some false) →
  (What hdr = PROC_EVENT_SID →
   result (isWatching (int_of_uint32 (sid_ProcessPid (struct_of order buf))) PROC_EVENT_SID t)
   = Some false) →
  table (handleEvent order data t) = t.
Proof.
  cbv zeta. intros Hfork Hexit Hid Hsid. apply handleEvent_table_kept; cbv zeta.
  - intros E. specialize (Hfork E). rewrite isWatching_run in Hfork.
    injection Hfork as ->. reflexivity.
  - intros E. specialize (Hexit E). rewrite isWatching_run in Hexit.
    injection Hexit as ->. reflexivity.
  - intros E. specialize (Hid E). rewrite isWatching_run in Hid.
    injection Hid as ->. right. reflexivity.
  - intros E. specialize (Hsid E). rewrite isWatching_run in Hsid.
    injection Hsid as ->. reflexivity.
Qed.

Lemma handleEvent_keeps_table_witness :
  table (handleEvent LittleEndian (event_bytes LittleEndian PROC_EVENT_EXIT [7; 7; 0; 17])
           (table_of [(7, PROC_EVENT_EXEC)]))
  = table_of [(7, PROC_EVENT_EXEC)].
Proof.
  apply (handleEvent_keeps_table LittleEndian
           (event_bytes LittleEndian PROC_EVENT_EXIT [7; 7; 0; 17])
           (table_of [(7, PROC_EVENT_EXEC)]));
    intros H; vm_compute in H; vm_compute; (reflexivity || intuition discriminate).
Defined.

Lemma handleEvent_one_key order data t :
  ∃ pid, 0 ≤ pid < 2 ^ 32 ∧
         ∀ q, q ≠ pid → table (handleEvent order data t) !! q = t !! q.
Proof.
  rewrite handleEvent_run. cbv zeta.
  set (buf := event_payload order data).
  destruct (What (event_header order data) =? PROC_EVENT_FORK).
  { pose proof (case_FORK_run order buf t) as E. cbv zeta in E. rewrite E. clear E.
    pose proof (fork_ids_range order buf) as [_ Hc]. cbv zeta in Hc.
    exists (int_of_uint32 (ChildTgid (struct_of order buf))).
    split; [rewrite int_of_uint32_id by exact Hc; exact Hc|].
    intros q Hq. cbn [table].
    destruct (watching t _ PROC_EVENT_EXEC); [|reflexivity].
    destruct (matching_entry t _); [|reflexivity].
    apply lookup_insert_ne. congruence. }
  destruct (What (event_header order data) =? PROC_EVENT_EXEC).
  { rewrite case_EXEC_run. exists 0. split; [split; [lia|reflexivity]|]. reflexivity. }
  destruct (What (event_header order data) =? PROC_EVENT_EXIT).
  { rewrite case_EXIT_run. cbv zeta.
    pose proof (exit_id_range order buf) as Hc.
    exists (int_of_uint32 (exit_ProcessTgid (struct_of order buf))).
    split; [rewrite int_of_uint32_id by exact Hc; exact Hc|].
    intros q Hq. split_if; cbn [table]; [|reflexivity].
    apply lookup_delete_ne. congruence. }
  destruct ((What (event_header order data) =? PROC_EVENT_UID)
            || (What (event_header order data) =? PROC_EVENT_GID)).
  { exists 0. split; [split; [lia|reflexivity]|]. intros q Hq.
    destruct (le_lt_dec 16 (length buf)) as [Hl|Hl].
    - rewrite (case_UID_GID_full _ _ _ Hl). reflexivity.
    - rewrite (case_UID_GID_short _ _ _ Hl). split_if; cbn [table]; [|reflexivity].
      apply lookup_delete_ne. congruence. }
  destruct (What (event_header order data) =? PROC_EVENT_SID).
  { rewrite case_SID_run. cbv zeta.
    pose proof (sid_id_range order buf) as Hc.
    exists (int_of_uint32 (sid_ProcessPid (struct_of order buf))).
    split; [rewrite int_of_uint32_id by exact Hc; exact Hc|].
    intros q Hq. split_if; cbn [table]; [|reflexivity].
    apply lookup_delete_ne. congruence. }
  exists 0. split; [split; [lia|reflexivity]|]. reflexivity.
Qed.

(** X8. One message touches one entry, and never the wildcard:
    whatever the bytes, the table after [handleEvent] differs from the
    table before in the entry of at most one key, a 32-bit process id
    taken from the message; the wildcard entry (key -1) is as before.
    ([Watch] and [RemoveWatch] act on the key they are given.) *)
Theorem handleEvent_touches_one_entry order (data : list Byte.byte) (t : gmap Z watch) :
  (∃ pid, 0 ≤ pid < 2 ^ 32 ∧
          ∀ q, q ≠ pid → table (handleEvent order data t) !! q = t !! q) ∧
  table (handleEvent order data t) !! ANY = t !! ANY.
Proof.
  destruct (handleEvent_one_key order data t) as (pid & Hpid & Hother).
  split; [exists pid; auto|]. apply Hother. unfold ANY. lia.
Qed.

(** ** The mask test *)

Lemma land_lor_iff f a b :
  Z.land f (Z.lor a b) = Z.lor a b ↔ Z.land f a = a ∧ Z.land f b = b.
Proof.
  split.
  - intros H.
    assert (Hb : ∀ n, Z.testbit f n && (Z.testbit a n || Z.testbit b n)
                      = Z.testbit a n || Z.testbit b n).
    { intros n. rewrite <- Z.lor_spec, <- Z.land_spec, H. reflexivity. }
    split; apply Z.bits_inj'; intros n _; rewrite Z.land_spec; specialize (Hb n);
      destruct (Z.testbit f n), (Z.testbit a n), (Z.testbit b n);
      (reflexivity || discriminate).
  - intros [Ha Hb]. rewrite Z.land_lor_distr_r, Ha, Hb. reflexivity.
Qed.

(** X9. Asking [isWatching] about several kinds at once asks about all
    of them: for a mask that is the union of two masks it returns true
    exactly when it returns true for each of the two. *)
Theorem isWatching_union (t : gmap Z watch) (pid a b : Z) :
  result (isWatching pid (Z.lor a b) t) = Some true ↔
  result (isWatching pid a t) = Some true ∧ result (isWatching pid b t) = Some true.
Proof.
  rewrite !isWatching_run. cbn [result]. unfold watching, has_kind.
  destruct (matching_entry t pid) as [e|]; cbn [from_option].
  - split.
    + intros H. injection H as H. apply Z.eqb_eq, land_lor_iff in H as [Ha Hb].
      split; f_equal; apply Z.eqb_eq; assumption.
    + intros [Ha Hb]. injection Ha as Ha. injection Hb as Hb.
      apply Z.eqb_eq in Ha, Hb. f_equal. apply Z.eqb_eq, land_lor_iff. auto.
  - split; [discriminate|intros [? _]; discriminate].
Qed.

(** ** The kernel channel *)

Lemma uint_at_exact order n v :
  0 ≤ v < 2 ^ (8 * Z.of_nat n) → uint_at order n 0 (put_uint order n v) = v.
Proof.
  intros Hv. rewrite <- (app_nil_r (put_uint order n v)). apply uint_at_here. exact Hv.
Qed.

(** A connector header written by [binary.Write] is read back by
    [binary.Read]. *)
Lemma cnMsg_value_Write order m :
  0 ≤ Idx (Id m) < 2 ^ 32 → 0 ≤ Val (Id m) < 2 ^ 32 →
  0 ≤ Seq m < 2 ^ 32 → 0 ≤ Ack m < 2 ^ 32 →
  0 ≤ Len m < 2 ^ 16 → 0 ≤ Flags m < 2 ^ 16 →
  value (A := cnMsg) order (Write_cnMsg order m) = Some m.
Proof.
  intros HI HV HS HA HL HF. destruct m as [[idx val] sq ack len flg].
  cbn [Id Idx Val Seq Ack Len Flags] in *.
  change (value (A := cnMsg) order ?b)
    with (Some {| Id := {| Idx := uint_at order 4 0 b; Val := uint_at order 4 4 b |};
                  Seq := uint_at order 4 8 b; Ack := uint_at order 4 12 b;
                  Len := uint_at order 2 16 b; Flags := uint_at order 2 18 b |}).
  unfold Write_cnMsg. cbn [Id Idx Val Seq Ack Len Flags].
  f_equal. f_equal; [f_equal|..].
  - apply uint_at_here. exact HI.
  - rewrite (uint_at_skip order 4 4 0) by (symmetry; apply length_put_uint).
    apply uint_at_here. exact HV.
  - rewrite (uint_at_skip order 4 4 4) by (symmetry; apply length_put_uint).
    rewrite (uint_at_skip order 4 4 0) by (symmetry; apply length_put_uint).
    apply uint_at_here. exact HS.
  - rewrite (uint_at_skip order 4 4 8) by (symmetry; apply length_put_uint).
    rewrite (uint_at_skip order 4 4 4) by (symmetry; apply length_put_uint).
    rewrite (uint_at_skip order 4 4 0) by (symmetry; apply length_put_uint).
    apply uint_at_here. exact HA.
  - rewrite (uint_at_skip order 2 4 12) by (symmetry; apply length_put_uint).
    rewrite (uint_at_skip order 2 4 8) by (symmetry; apply length_put_uint).
    rewrite (uint_at_skip order 2 4 4) by (symmetry; apply length_put_uint).
    rewrite (uint_at_skip order 2 4 0) by (symmetry; apply length_put_uint).
    apply uint_at_here. exact HL.
  - rewrite (uint_at_skip order 2 4 14) by (symmetry; apply length_put_uint).
    rewrite (uint_at_skip order 2 4 10) by (symmetry; apply length_put_uint).
    rewrite (uint_at_skip order 2 4 6) by (symmetry; apply length_put_uint).
    rewrite (uint_at_skip order 2 4 2) by (symmetry; apply length_put_uint).
    rewrite (uint_at_skip order 2 2 0) by (symmetry; apply length_put_uint).
    apply uint_at_exact. exact HF.
Qed.

(** What [send] does, with the message named. *)
Lemma send_run order k l op :
  listener.send order k l op =
  let sq := (seq l + 1) mod 2 ^ 32 in
  let buf := nlmsg_bytes order (control_message order sq (Getpid k mod 2 ^ 32) op) in
  ({| addr := addr l; sock := sock l; seq := sq |},
   Sendto_result k buf,
   [SysSendto (sock l) buf 0 (addr l)]).
Proof.
  unfold listener.send, control_message, nlmsg_bytes, Write_netlinkProcMessage.
  cbv zeta. cbn [pm_Header pm_Data addr sock seq syscall.Header syscall.Data].
  rewrite <- !app_assoc. reflexivity.
Qed.

Lemma control_message_wf order sq pid op :
  0 ≤ sq < 2 ^ 32 → 0 ≤ pid < 2 ^ 32 → nlmsg_wf (control_message order sq pid op).
Proof.
  intros Hs Hp. unfold nlmsg_wf, control_message.
  cbn [syscall.Header syscall.Data syscall.Len syscall.Type_ syscall.Flags
       syscall.Seq syscall.Pid].
  rewrite length_app, length_Write_cnMsg, length_put_uint.
  change (dataSize (A := cnMsg)) with 20%nat. unfold NLMSG_HDRLEN, NLMSG_DONE.
  repeat split; try reflexivity; lia.
Qed.

(** X10. The control message round trip. [send] makes one [Sendto]
    call on the listener's socket and address and returns its error; the
    40 bytes it sends are one well-formed netlink message:
    [ParseNetlinkMessage] takes them apart into exactly one message, of
    length 40 and type [NLMSG_DONE], carrying the listener's new
    sequence number and the process id; its data is read back by
    [binary.Read] as the connector header (idx 1, val 1, length 4),
    followed by four bytes that read back as the operation. *)
Theorem send_message_round_trip order (k : Kernel) (l : netlinkListener) (op : Z) :
  0 ≤ op < 2 ^ 32 →
  ∃ buf m,
    listener.send order k l op =
      ({| addr := addr l; sock := sock l; seq := (seq l + 1) mod 2 ^ 32 |},
       Sendto_result k buf, [SysSendto (sock l) buf 0 (addr l)]) ∧
    length buf = 40%nat ∧
    syscall.ParseNetlinkMessage order buf = Some [m] ∧
    syscall.Header m =
      {| syscall.Len := 40; syscall.Type_ := NLMSG_DONE; syscall.Flags := 0;
         syscall.Seq := (seq l + 1) mod 2 ^ 32; syscall.Pid := Getpid k mod 2 ^ 32 |} ∧
    binary_Read (A := cnMsg) (syscall.Data m) order =
      (ReadOk {| Id := {| Idx := 1; Val := 1 |}; Seq := 0; Ack := 0; Len := 4; Flags := 0 |},
       put_uint order 4 op) ∧
    uint_of order (put_uint order 4 op) = op.
Proof.
  intros Hop. rewrite send_run. cbv zeta.
  set (sq := (seq l + 1) mod 2 ^ 32). set (pid := Getpid k mod 2 ^ 32).
  assert (Hsq : 0 ≤ sq < 2 ^ 32) by (apply Z.mod_pos_bound; reflexivity).
  assert (Hpid : 0 ≤ pid < 2 ^ 32) by (apply Z.mod_pos_bound; reflexivity).
  exists (nlmsg_bytes order (control_message order sq pid op)),
         (control_message order sq pid op).
  split; [reflexivity|]. split.
  { rewrite length_nlmsg_bytes. unfold control_message. cbn [syscall.Data].
    rewrite length_app, length_Write_cnMsg, length_put_uint. reflexivity. }
  split.
  { pose proof (ParseNetlinkMessage_messages order [control_message order sq pid op]
                  (Forall_cons_2 _ _ _ (control_message_wf order sq pid op Hsq Hpid)
                     (Forall_nil_2 _))) as H.
    cbn [map concat] in H. rewrite app_nil_r in H. exact H. }
  split; [reflexivity|]. split.
  { unfold control_message. cbn [syscall.Data].
    rewrite binary_Read_app by apply length_Write_cnMsg.
    rewrite cnMsg_value_Write;
      [reflexivity|cbn; unfold _CN_IDX_PROC, _CN_VAL_PROC; lia..]. }
  apply uint_of_put_uint. exact Hop.
Qed.

Lemma send_message_round_trip_witness :
  ∃ buf m,
    listener.send LittleEndian
      {| Getpid := 4242; Socket_result := inl 3; Bind_result := None;
         Sendto_result := λ _, None |}
      {| addr := None; sock := 3; seq := 0 |} _PROC_CN_MCAST_LISTEN =
      ({| addr := None; sock := 3; seq := (0 + 1) mod 2 ^ 32 |},
       None, [SysSendto 3 buf 0 None]) ∧
    length buf = 40%nat ∧
    syscall.ParseNetlinkMessage LittleEndian buf = Some [m] ∧
    syscall.Header m =
      {| syscall.Len := 40; syscall.Type_ := NLMSG_DONE; syscall.Flags := 0;
         syscall.Seq := (0 + 1) mod 2 ^ 32; syscall.Pid := 4242 mod 2 ^ 32 |} ∧
    binary_Read (A := cnMsg) (syscall.Data m) LittleEndian =
      (ReadOk {| Id := {| Idx := 1; Val := 1 |}; Seq := 0; Ack := 0; Len := 4; Flags := 0 |},
       put_uint LittleEndian 4 _PROC_CN_MCAST_LISTEN) ∧
    uint_of LittleEndian (put_uint LittleEndian 4 _PROC_CN_MCAST_LISTEN)
    = _PROC_CN_MCAST_LISTEN.
Proof.
  apply (send_message_round_trip LittleEndian
           {| Getpid := 4242; Socket_result := inl 3; Bind_result := None;
              Sendto_result := λ _, None |}
           {| addr := None; sock := 3; seq := 0 |} _PROC_CN_MCAST_LISTEN).
  vm_compute. split; congruence.
Defined.

(** The fields of a control message, read where they lie in the bytes. *)
Lemma control_message_fields order sq pid op :
  0 ≤ sq < 2 ^ 32 → 0 ≤ pid < 2 ^ 32 → 0 ≤ op < 2 ^ 32 →
  let buf := nlmsg_bytes order (control_message order sq pid op) in
  syscall.Seq (syscall.header_at order buf) = sq ∧ uint_at order 4 36 buf = op.
Proof.
  intros Hsq Hpid Hop buf. subst buf. unfold nlmsg_bytes. split.
  - rewrite header_at_Write;
      cbn [control_message syscall.Header syscall.Len syscall.Type_ syscall.Flags
           syscall.Seq syscall.Pid];
      [reflexivity|unfold NLMSG_DONE; lia..].
  - rewrite (uint_at_skip order 4 16 20) by (symmetry; apply length_Write_NlMsghdr).
    unfold control_message. cbn [syscall.Data].
    rewrite (uint_at_skip order 4 20 0) by (symmetry; apply length_Write_cnMsg).
    apply uint_at_exact. exact Hop.
Qed.

(** X11. The handshake. When [Socket] and [Bind] succeed,
    [createListener] makes three calls, [Socket], [Bind] to the
    process-event group, and one [Sendto] whose message carries sequence
    number 1 and the operation LISTEN; [close] on the listener it
    returns then makes two, one [Sendto] on the same socket and address
    whose message carries sequence number 2 and the operation IGNORE,
    and [Close] of the socket. Each returns the error of its
    [Sendto]. *)
Theorem listen_then_ignore order (k : Kernel) (fd : Z) :
  Socket_result k = inl fd → Bind_result k = None →
  let sa := Some {| Family := AF_NETLINK; Groups := _CN_IDX_PROC |} in
  let opened := createListener order k in
  let closed := listener.close order k opened.1.1 in
  ∃ b1 b2,
    opened.2 = [SysSocket AF_NETLINK SOCK_DGRAM NETLINK_CONNECTOR;
                SysBind fd sa; SysSendto fd b1 0 sa] ∧
    opened.1.2 = Sendto_result k b1 ∧
    syscall.Seq (syscall.header_at order b1) = 1 ∧
    uint_at order 4 36 b1 = _PROC_CN_MCAST_LISTEN ∧
    closed.2 = [SysSendto fd b2 0 sa; SysClose fd] ∧
    closed.1.2 = Sendto_result k b2 ∧
    syscall.Seq (syscall.header_at order b2) = 2 ∧
    uint_at order 4 36 b2 = _PROC_CN_MCAST_IGNORE.
Proof.
  intros Hs Hb sa opened closed. subst opened closed.
  unfold createListener, listener.bind, listener.close. rewrite Hs, Hb.
  rewrite !send_run. cbv zeta. cbn [fst snd addr sock seq app].
  assert (Hpid : 0 ≤ Getpid k mod 2 ^ 32 < 2 ^ 32) by (apply Z.mod_pos_bound; reflexivity).
  change ((0 + 1) mod 2 ^ 32) with 1. change ((1 + 1) mod 2 ^ 32) with 2.
  destruct (control_message_fields order 1 (Getpid k mod 2 ^ 32) _PROC_CN_MCAST_LISTEN)
    as [S1 O1]; [lia|exact Hpid|unfold _PROC_CN_MCAST_LISTEN; lia|].
  destruct (control_message_fields order 2 (Getpid k mod 2 ^ 32) _PROC_CN_MCAST_IGNORE)
    as [S2 O2]; [lia|exact Hpid|unfold _PROC_CN_MCAST_IGNORE; lia|].
  cbv zeta in S1, O1, S2, O2.
  eexists _, _. repeat split; [exact S1|exact O1|exact S2|exact O2].
Qed.

Lemma listen_then_ignore_witness :
  let k := {| Getpid := 4242; Socket_result := inl 3; Bind_result := None;
              Sendto_result := λ _, None |} in
  let sa := Some {| Family := AF_NETLINK; Groups := _CN_IDX_PROC |} in
  let opened := createListener LittleEndian k in
  let closed := listener.close LittleEndian k opened.1.1 in
  ∃ b1 b2,
    opened.2 = [SysSocket AF_NETLINK SOCK_DGRAM NETLINK_CONNECTOR;
                SysBind 3 sa; SysSendto 3 b1 0 sa] ∧
    opened.1.2 = Sendto_result k b1 ∧
    syscall.Seq (syscall.header_at LittleEndian b1) = 1 ∧
    uint_at LittleEndian 4 36 b1 = _PROC_CN_MCAST_LISTEN ∧
    closed.2 = [SysSendto 3 b2 0 sa; SysClose 3] ∧
    closed.1.2 = Sendto_result k b2 ∧
    syscall.Seq (syscall.header_at LittleEndian b2) = 2 ∧
    uint_at LittleEndian 4 36 b2 = _PROC_CN_MCAST_IGNORE.
Proof.
  apply (listen_then_ignore LittleEndian
           {| Getpid := 4242; Socket_result := inl 3; Bind_result := None;
              Sendto_result := λ _, None |} 3); reflexivity.
Defined.

(** X12. How [bind] fails. An error of [Socket] is returned at once:
    no other call is made and the listener is as before. An error of
    [Bind] is returned after the two calls, with the new descriptor
    stored in the listener and no message sent. [bind] returns no error
    only when [Socket], [Bind] and the [Sendto] of the LISTEN message
    all succeeded. And on no path does [bind] close the socket it
    opened: after a failed [Bind] or a failed send the descriptor stays
    open. *)
Theorem bind_failures order (k : Kernel) (l : netlinkListener) :
  let r := listener.bind order k l in
  (∀ e, Socket_result k = inr e →
        r = (l, Some e, [SysSocket AF_NETLINK SOCK_DGRAM NETLINK_CONNECTOR])) ∧
  (∀ fd e, Socket_result k = inl fd → Bind_result k = Some e →
        r = ({| addr := Some {| Family := AF_NETLINK; Groups := _CN_IDX_PROC |};
                sock := fd; seq := seq l |},
             Some e,
             [SysSocket AF_NETLINK SOCK_DGRAM NETLINK_CONNECTOR;
              SysBind fd (Some {| Family := AF_NETLINK; Groups := _CN_IDX_PROC |})])) ∧
  (r.1.2 = None →
   ∃ fd buf, Socket_result k = inl fd ∧ Bind_result k = None ∧
             Sendto_result k buf = None ∧
             In (SysSendto fd buf 0 (Some {| Family := AF_NETLINK; Groups := _CN_IDX_PROC |}))
                r.2 ∧
             sock r.1.1 = fd) ∧
  (∀ fd, ¬ In (SysClose fd) r.2).
Proof.
  cbv zeta. unfold listener.bind.
  destruct (Socket_result k) as [fd|e0] eqn:Hs.
  - destruct (Bind_result k) as [e1|] eqn:Hb.
    + split; [discriminate|]. split.
      * intros fd' e Hfd He. injection Hfd as <-. injection He as <-. reflexivity.
      * split; [discriminate|]. intros fd' [H|[H|[]]]; discriminate.
    + rewrite send_run. cbv zeta. cbn [fst snd addr sock seq app].
      split; [discriminate|]. split; [discriminate|]. split.
      * intros Hok. eexists fd, _. repeat split; [exact Hok|]. right. right. left. reflexivity.
      * intros fd' [H|[H|[H|[]]]]; discriminate.
  - split.
    + intros e He. injection He as <-. reflexivity.
    + split; [discriminate|]. split; [discriminate|]. intros fd' [H|[]]; discriminate.
Qed.

Lemma bind_failures_witness :
  listener.bind LittleEndian
    {| Getpid := 4242; Socket_result := inl 3; Bind_result := Some (Errno 1);
       Sendto_result := λ _, None |}
    {| addr := None; sock := 0; seq := 0 |}
  = ({| addr := Some {| Family := AF_NETLINK; Groups := _CN_IDX_PROC |};
        sock := 3; seq := 0 |},
     Some (Errno 1),
     [SysSocket AF_NETLINK SOCK_DGRAM NETLINK_CONNECTOR;
      SysBind 3 (Some {| Family := AF_NETLINK; Groups := _CN_IDX_PROC |})]).
Proof.
  apply (proj1 (proj2 (bind_failures LittleEndian
                         {| Getpid := 4242; Socket_result := inl 3;
                            Bind_result := Some (Errno 1); Sendto_result := λ _, None |}
                         {| addr := None; sock := 0; seq := 0 |}))); reflexivity.
Defined.

(** ** More on the loop and the dispatcher *)

Lemma run_bind_panic_l {A B} (m : M A) (f : A → M B) t t' e :
  m t = mkRes None t' e → (m ≫= f) t = mkRes None t' e.
Proof. intros E. unfold mbind, M_bind. rewrite E. reflexivity. Qed.

(** X13. A uid or gid message stops the loop. When a datagram carries
    a uid or gid message with a complete payload, the panic of
    [binary.Read] in [handleEvent] is the end of [readEvents]: it does
    not return, nothing is sent for this datagram, and the receives that
    follow are never made. *)
Theorem readEvents_stops_at_id_event order (data : list Byte.byte)
    (rest : list Recvfrom) (t : gmap Z watch) :
  What (event_header order data) = PROC_EVENT_UID ∨
  What (event_header order data) = PROC_EVENT_GID →
  (dataSize (A := idProcEvent) ≤ length (event_payload order data))%nat →
  (length data mod 4 = 0)%nat → Z.of_nat (NLMSG_HDRLEN + length data) < 2 ^ 32 →
  readEvents order (RecvOk (datagram_of order data) :: rest) t = mkRes None t [].
Proof.
  intros Hk Hlen Hal Hlt.
  rewrite (readEvents_datagram_of order data rest t Hal Hlt).
  apply run_bind_panic_l.
  rewrite (handleEvent_UID_GID _ _ _ Hk). apply case_UID_GID_full. exact Hlen.
Qed.

Lemma readEvents_stops_at_id_event_witness :
  readEvents LittleEndian
    [RecvOk (datagram_of LittleEndian
               (event_bytes LittleEndian PROC_EVENT_GID [100; 100; 1000; 0]));
     RecvOk (datagram_of LittleEndian (event_bytes LittleEndian PROC_EVENT_EXEC [7; 7]))]
    (table_of [(7, PROC_EVENT_EXEC)])
  = mkRes None (table_of [(7, PROC_EVENT_EXEC)]) [].
Proof.
  apply (readEvents_stops_at_id_event LittleEndian
           (event_bytes LittleEndian PROC_EVENT_GID [100; 100; 1000; 0])).
  - right. reflexivity.
  - vm_compute. lia.
  - reflexivity.
  - vm_compute. reflexivity.
Defined.

(** X14. [isWatching] keeps the mutex discipline and only reads: it
    takes the mutex first, looks up the entry of the pid and, only when
    there is none, the wildcard entry, both with the mutex held, and has
    released it when it returns, on each of its three return paths; it
    never stores into or deletes from the map. *)
Theorem isWatching_locked_reads (t : gmap Z watch) (pid kind : Z) :
  let tr := effects (isWatching pid kind t) in
  disciplined false tr = true ∧
  forallb (λ e, negb (mutates e)) tr = true ∧
  tr = [Lock; MapLoad pid] ++
       (if decide (is_Some (t !! pid)) then [] else [MapLoad ANY]) ++ [Unlock].
Proof.
  cbv zeta. rewrite isWatching_run. cbn [effects]. unfold watching_trace.
  destruct (t !! pid) as [e|] eqn:E.
  - rewrite decide_True by eauto. repeat split.
  - rewrite decide_False by (intros [? ?]; discriminate). repeat split.
Qed.

(** A message cut inside its payload. *)
Lemma struct_of_short {A} `{BinaryData A} order buf :
  (length buf < dataSize)%nat → struct_of (A := A) order buf = zero.
Proof. intros Hlen. unfold struct_of. rewrite binary_Read_short by exact Hlen. reflexivity. Qed.

(** X15. A message cut inside its payload is an event of process 0.
    [handleEvent] drops the error of the short read and goes on with the
    payload at its zero value: an exec, exit or sid message whose
    payload is incomplete sends the event of pid 0 exactly when pid 0 is
    watched for that kind (through its own entry or the wildcard), and a
    fork message sends nothing or the fork event of parent 0 and
    child 0. *)
Theorem truncated_payload_is_pid_zero order (data : list Byte.byte) (t : gmap Z watch) :
  let hdr := event_header order data in
  let buf := event_payload order data in
  let ms := sent (effects (handleEvent order data t)) in
  (What hdr = PROC_EVENT_EXEC → (length buf < dataSize (A := execProcEvent))%nat →
   ∃ b, result (isWatching 0 PROC_EVENT_EXEC t) = Some b ∧
        ms = if b then [OnExec 0] else []) ∧
  (What hdr = PROC_EVENT_EXIT → (length buf < dataSize (A := exitProcEvent))%nat →
   ∃ b, result (isWatching 0 PROC_EVENT_EXIT t) = Some b ∧
        ms = if b then [OnExit 0] else []) ∧
  (What hdr = PROC_EVENT_SID → (length buf < dataSize (A := sidProcEvent))%nat →
   ∃ b, result (isWatching 0 PROC_EVENT_SID t) = Some b ∧
        ms = if b then [OnSid 0] else []) ∧
  (What hdr = PROC_EVENT_FORK → (length buf < dataSize (A := forkProcEvent))%nat →
   ms = [] ∨ ms = [OnFork 0 0]).
Proof.
  cbv zeta. repeat split.
  - intros Hk Hlen. rewrite (handleEvent_EXEC _ _ _ Hk), case_EXEC_run. cbv zeta.
    rewrite (struct_of_short (A := execProcEvent)) by exact Hlen.
    change (int_of_uint32 (exec_ProcessTgid zero)) with 0.
    exists (watching t 0 PROC_EVENT_EXEC). rewrite isWatching_run. split; [reflexivity|].
    cbn [effects]. rewrite sent_app, sent_watching_trace. split_if; reflexivity.
  - intros Hk Hlen. rewrite (handleEvent_EXIT _ _ _ Hk), case_EXIT_run. cbv zeta.
    rewrite (struct_of_short (A := exitProcEvent)) by exact Hlen.
    change (int_of_uint32 (exit_ProcessTgid zero)) with 0.
    exists (watching t 0 PROC_EVENT_EXIT). rewrite isWatching_run. split; [reflexivity|].
    split_if; cbn [effects]; rewrite sent_app, sent_watching_trace; reflexivity.
  - intros Hk Hlen. rewrite (handleEvent_SID _ _ _ Hk), case_SID_run. cbv zeta.
    rewrite (struct_of_short (A := sidProcEvent)) by exact Hlen.
    change (int_of_uint32 (sid_ProcessPid zero)) with 0.
    exists (watching t 0 PROC_EVENT_SID). rewrite isWatching_run. split; [reflexivity|].
    split_if; cbn [effects]; rewrite sent_app, sent_watching_trace; reflexivity.
  - intros Hk Hlen. rewrite (handleEvent_FORK _ _ _ Hk).
    destruct (case_FORK_sent order (event_payload order data) t) as [b Hb].
    rewrite (struct_of_short (A := forkProcEvent)) in Hb by exact Hlen.
    rewrite Hb. destruct b; [right|left]; reflexivity.
Qed.

Lemma truncated_payload_is_pid_zero_witness :
  ∃ b, result (isWatching 0 PROC_EVENT_EXIT (table_of [(ANY, PROC_EVENT_ALL)])) = Some b ∧
       sent (effects (handleEvent LittleEndian
                        (event_bytes LittleEndian PROC_EVENT_EXIT [7; 7])
                        (table_of [(ANY, PROC_EVENT_ALL)])))
       = if b then [OnExit 0] else [].
Proof.
  apply (proj1 (proj2 (truncated_payload_is_pid_zero LittleEndian
                         (event_bytes LittleEndian PROC_EVENT_EXIT [7; 7])
                         (table_of [(ANY, PROC_EVENT_ALL)])))).
  - reflexivity.
  - vm_compute. lia.
Defined.
